(** * PDP-Tester: product document generator and product requester

    A shallow embedding of [generate_product_docs.py] and
    [product_requester.py], and the properties of the field classifier,
    the filename sanitiser, the response parser and the record store.

    Modelling conventions.
    - A Python [str] is a [string]; the character classes (whitespace,
      word characters, letter case) are those of Python restricted to
      code points below 128: field names come from a fixed ASCII
      schema.  A title is free text: the functions that read a title
      ([clean_filename], the duplicate check, the lookup by name) are
      given on any text as well, in the module [Unicode], where the
      tables of Unicode and [str.lower] are parameters.
    - A product record (a [dict] loaded from JSON, insertion ordered) is
      an association list of field name and field value, both text.
    - [processed_fields] (a Python [set]) is a [gset string].
    - The python-docx calls issued on [doc] are recorded as a list of
      render instructions, in call order. *)

From Stdlib Require Import Ascii String List Bool Arith Lia DecimalString.
From stdpp Require Import base gmap sets list strings.

Local Open Scope bool_scope.

(** ** Characters and strings, as Python treats them *)

Module Py.

Definition code (c : ascii) : nat := nat_of_ascii c.

Definition between (lo hi : nat) (c : ascii) : bool :=
  (lo <=? code c) && (code c <=? hi).

Definition is_upper (c : ascii) : bool := between 65 90 c.
Definition is_lower (c : ascii) : bool := between 97 122 c.
Definition is_digit (c : ascii) : bool := between 48 57 c.

(** [str.isspace] on one character: tab, newline, vertical tab, form
    feed, carriage return, the four separators 28..31 and the blank. *)
Definition is_space (c : ascii) : bool :=
  between 9 13 c || between 28 32 c.

(** The class [\w] of [re]. *)
Definition is_word (c : ascii) : bool :=
  is_upper c || is_lower c || is_digit c || Ascii.eqb c "_".

Definition to_lower (c : ascii) : ascii :=
  if is_upper c then ascii_of_nat (code c + 32) else c.

Definition to_upper (c : ascii) : ascii :=
  if is_lower c then ascii_of_nat (code c - 32) else c.

Fixpoint smap (f : ascii -> ascii) (s : string) : string :=
  match s with
  | EmptyString => EmptyString
  | String c s' => String (f c) (smap f s')
  end.

(** [s.lower()] *)
Definition lower (s : string) : string := smap to_lower s.

(** [s.capitalize()] *)
Definition capitalize (s : string) : string :=
  match s with
  | EmptyString => EmptyString
  | String c s' => String (to_upper c) (lower s')
  end.

(** [needle in hay] *)
Fixpoint contains (needle hay : string) : bool :=
  String.prefix needle hay ||
  match hay with
  | EmptyString => false
  | String _ hay' => contains needle hay'
  end.

(** [s.startswith(p)] *)
Definition startswith (p s : string) : bool := String.prefix p s.

(** [x in xs] for a list of strings *)
Definition in_list (x : string) (xs : list string) : bool :=
  existsb (String.eqb x) xs.

(** [s.replace(c, r)] for a one-character pattern [c] *)
Fixpoint replace_char (c : ascii) (r : string) (s : string) : string :=
  match s with
  | EmptyString => EmptyString
  | String a s' =>
      if Ascii.eqb a c then r +:+ replace_char c r s'
      else String a (replace_char c r s')
  end.

(** [s.split()]: the maximal runs of characters that are not
    whitespace, in order. *)
Fixpoint split (s : string) : list string :=
  match s with
  | EmptyString => []
  | String c s' =>
      if is_space c then split s'
      else
        match s' with
        | EmptyString => [String c EmptyString]
        | String c' _ =>
            if is_space c' then String c EmptyString :: split s'
            else
              match split s' with
              | w :: ws => String c w :: ws
              | [] => [String c EmptyString]
              end
        end
  end.

(** [sep.join(ws)] *)
Fixpoint join (sep : string) (ws : list string) : string :=
  match ws with
  | [] => EmptyString
  | [w] => w
  | w :: ws' => w +:+ sep +:+ join sep ws'
  end.

(** [s.split()[-1]]; Python raises [IndexError] when there is no
    token, which is [None] here. *)
Definition last_token (s : string) : option string := last (split s).

Fixpoint sfilter (p : ascii -> bool) (s : string) : string :=
  match s with
  | EmptyString => EmptyString
  | String c s' => if p c then String c (sfilter p s') else sfilter p s'
  end.

Fixpoint lstrip (p : ascii -> bool) (s : string) : string :=
  match s with
  | EmptyString => EmptyString
  | String c s' => if p c then lstrip p s' else s
  end.

Fixpoint rstrip (p : ascii -> bool) (s : string) : string :=
  match s with
  | EmptyString => EmptyString
  | String c s' =>
      match rstrip p s' with
      | EmptyString => if p c then EmptyString else String c EmptyString
      | r => String c r
      end
  end.

(** [s.strip(chars)] with [p] the membership test of [chars];
    [s.strip()] is [strip is_space]. *)
Definition strip (p : ascii -> bool) (s : string) : string :=
  rstrip p (lstrip p s).

(** [re.sub(r'[cls]+', repl, s)]: every maximal run of characters of
    the class is replaced by one copy of [repl]. *)
Fixpoint sub_runs (cls : ascii -> bool) (repl : string) (in_run : bool)
    (s : string) : string :=
  match s with
  | EmptyString => EmptyString
  | String c s' =>
      if cls c then
        if in_run then sub_runs cls repl true s'
        else repl +:+ sub_runs cls repl true s'
      else String c (sub_runs cls repl false s')
  end.

(** Truthiness of a text value: [not value] holds of the empty string
    only. *)
Definition truthy (s : string) : bool :=
  match s with EmptyString => false | String _ _ => true end.

(** Truthiness of a dict: [if d:] fails on the empty dict only. *)
Definition truthy_record {A : Type} (d : list A) : bool :=
  match d with [] => false | _ :: _ => true end.

End Py.

(** ** [generate_product_docs.py]: pure helpers *)

(** [clean_filename(name)]:
    [re.sub(r'[^\w\s-]', '', name)], then [re.sub(r'[-\s]+', '_', ...)],
    then [.strip('_')]. *)
Definition is_hyphen (c : ascii) : bool := Ascii.eqb c "-".
Definition is_underscore (c : ascii) : bool := Ascii.eqb c "_".

Definition keep_char (c : ascii) : bool :=
  Py.is_word c || Py.is_space c || is_hyphen c.

Definition sep_char (c : ascii) : bool := is_hyphen c || Py.is_space c.

(** Letters and digits: the word characters other than the underscore. *)
Definition is_alnum (c : ascii) : bool :=
  Py.is_upper c || Py.is_lower c || Py.is_digit c.

(** Every character of [s] satisfies [p]. *)
Fixpoint all_chars (p : ascii -> bool) (s : string) : bool :=
  match s with
  | EmptyString => true
  | String c s' => p c && all_chars p s'
  end.

(** [c] does not occur in [s]. *)
Definition no_char (c : ascii) (s : string) : bool :=
  all_chars (fun a => negb (Ascii.eqb a c)) s.

(** A token: no whitespace in [s]. *)
Definition no_space (s : string) : bool :=
  all_chars (fun c => negb (Py.is_space c)) s.

Definition first_char (s : string) : option ascii :=
  match s with EmptyString => None | String c _ => Some c end.

Fixpoint last_char (s : string) : option ascii :=
  match s with
  | EmptyString => None
  | String c EmptyString => Some c
  | String _ s' => last_char s'
  end.

Definition clean_filename (name : string) : string :=
  let cleaned := Py.sfilter keep_char name in
  let cleaned := Py.sub_runs sep_char "_" false cleaned in
  Py.strip is_underscore cleaned.

(** [is_title_field(key)] *)
Definition title_keywords : list string := ["title"; "name"; "sku"].

Definition is_title_field (key : string) : bool :=
  existsb (fun keyword => Py.contains keyword (Py.lower key)) title_keywords.

(** [format_field_name(key)]; [None] is Python's [None]. *)
Definition skip_fields : list string :=
  ["Main category"; "Cost"; "Landing Cost"; "Bag size"; "Bag Price";
   "price/lb"].

Definition format_field_name (key : string) : option string :=
  if Py.in_list key skip_fields then None
  else
    let formatted := Py.replace_char "/" " / " (Py.replace_char "_" " " key) in
    Some (Py.join " " (map Py.capitalize (Py.split formatted))).

(** ** Product records and render instructions *)

(** A product record: the items of the [dict], in insertion order. *)
Definition record : Type := list (string * string).

(** [product_data[key]] when [key in product_data]. *)
Fixpoint lookup_field (key : string) (product_data : record) : option string :=
  match product_data with
  | [] => None
  | (k, v) :: rest =>
      if String.eqb key k then Some v else lookup_field key rest
  end.

(** [product_data.get(key, dflt)] *)
Definition get_field (key dflt : string) (product_data : record) : string :=
  default dflt (lookup_field key product_data).

(** [field in product_data and product_data[field]] *)
Definition present_nonempty (field : string) (product_data : record) : bool :=
  match lookup_field field product_data with
  | Some v => Py.truthy v
  | None => false
  end.

(** The calls made on the document.  [key] names the record field whose
    value the call prints; [size] is the font size of the value run.
    - [Title]: the centred level-1 heading;
    - [Table]: [add_table(doc, title, data_dict)], with the items of
      [data_dict] in order;
    - [Heading]: [doc.add_heading(level)] with the value as text;
    - [LabeledParagraph]: a bold ["label: "] run and a value run;
    - [Paragraph]: a paragraph with one value run;
    - [SteppedItem]: a level-3 heading ["Step n"] and a paragraph;
    - [FaqItem]: a paragraph with a bold ["Qn: "] run and a value run. *)
Inductive instr : Type :=
| Title (text : string)
| Table (title : string) (rows : list (string * string))
| Heading (key : string) (level : nat) (text : string) (size : nat)
| LabeledParagraph (key : string) (label text : string) (size : nat)
| Paragraph (key : string) (text : string)
| SteppedItem (key : string) (step_num text : string)
| FaqItem (key : string) (faq_num text : string).

(** The left cell of a table row: [format_field_name(key) or key]. *)
Definition row_label (key : string) : string :=
  match format_field_name key with
  | Some l => if Py.truthy l then l else key
  | None => key
  end.

(** The record fields whose values an instruction prints. *)
Definition fields_of (i : instr) : list string :=
  match i with
  | Title _ => ["Title"]
  | Table _ rows => rows.*1
  | Heading k _ _ _ | LabeledParagraph k _ _ _ | Paragraph k _
  | SteppedItem k _ _ | FaqItem k _ _ => [k]
  end.

(** How many instructions of [out] print the value of field [k]. *)
Definition renders (k : string) (out : list instr) : nat :=
  length (List.filter (fun i => Py.in_list k (fields_of i)) out).

(** The tables of [out] with the given title. *)
Definition is_table_titled (title : string) (i : instr) : bool :=
  match i with
  | Table t _ => String.eqb t title
  | _ => false
  end.

Definition tables_titled (title : string) (out : list instr) : list instr :=
  List.filter (is_table_titled title) out.

(** ** [create_product_document] *)

Definition table1_fields : list string :=
  ["Sun Requirements (Full Sun, Full Sun to Partial Shade, Shade)";
   "Soil Preference";
   "Soil pH";
   "Days to Maturity";
   "Height when mature";
   "Seeding rate";
   "Planting Depth"].

Definition table2_fields : list string :=
  ["Sun/Shade";
   "Height when Mature";
   "Seeding Rate";
   "Uses";
   "Color";
   "Water";
   "Native/Introduced";
   "Life Form"].

(** The loop [for field in fields: if field in product_data and
    product_data[field]: data[field] = product_data[field]]: the items
    of the resulting dict. *)
Fixpoint collect (fields : list string) (product_data : record)
    : list (string * string) :=
  match fields with
  | [] => []
  | field :: rest =>
      match lookup_field field product_data with
      | Some v =>
          if Py.truthy v then (field, v) :: collect rest product_data
          else collect rest product_data
      | None => collect rest product_data
      end
  end.

(** [if data: add_table(doc, title, data)] *)
Definition table_instr (title : string) (data : list (string * string))
    : list instr :=
  match data with
  | [] => []
  | _ :: _ => [Table title data]
  end.

(** [processed_fields.add(field)] for every collected field. *)
Definition add_all (keys : list string) (processed : gset string) : gset string :=
  list_to_set keys ∪ processed.

(** The gate of table 2: no ["Why chose this product Title i"], [i] in
    [range(1, 6)], is in the record and not yet processed. *)
Definition why_chose_title_key (i : string) : string :=
  "Why chose this product Title " +:+ i.

Definition why_chose_done (product_data : record) (processed : gset string) : bool :=
  forallb
    (fun i =>
       negb (bool_decide (is_Some (lookup_field (why_chose_title_key i) product_data))
             && negb (bool_decide (why_chose_title_key i ∈ processed))))
    ["1"; "2"; "3"; "4"; "5"].

(** [key.split()[-1]] in the branches below; the branch conditions
    guarantee a token (see [last_token_contains], [last_token_startswith]). *)
Definition trailing (key : string) : string := default "" (Py.last_token key).

(** The fallback and identifier rendering: a level-2 heading for a
    title-like name, a labelled paragraph otherwise. *)
Definition render_plain (key formatted_key value : string) : instr :=
  if is_title_field key then Heading key 2 value 16
  else LabeledParagraph key formatted_key value 11.

(** One iteration of the loop over [product_data.items()]: the new
    [processed_fields] and the calls made on [doc]. *)
Definition process_field (product_data : record) (processed : gset string)
    (key value : string) : gset string * list instr :=
  if negb (Py.truthy value) || bool_decide (key ∈ processed) then (processed, [])
  else
    match format_field_name key with
    | None => ({[key]} ∪ processed, [])
    | Some formatted_key =>
        if Py.in_list key table1_fields && negb (bool_decide (key ∈ processed)) then
          let table1_data := collect table1_fields product_data in
          (add_all table1_data.*1 processed,
           table_instr "Growing Conditions" table1_data)
        else if Py.in_list key ["SKU"; "Scientific Name / mix %"] then
          ({[key]} ∪ processed, [render_plain key formatted_key value])
        else if Py.contains "description" (Py.lower key)
                || Py.contains "what is" (Py.lower key) then
          ({[key]} ∪ processed, [LabeledParagraph key formatted_key value 12])
        else if Py.contains "why chose this product title" (Py.lower key) then
          let title_num := trailing key in
          let content_key := "Why chose this product " +:+ title_num in
          if present_nonempty content_key product_data then
            ({[content_key]} ∪ ({[key]} ∪ processed),
             [Heading key 3 value 14;
              Paragraph content_key (get_field content_key "" product_data)])
          else (processed, [])
        else if Py.in_list key table2_fields
                && negb (bool_decide (key ∈ processed))
                && why_chose_done product_data processed then
          let table2_data := collect table2_fields product_data in
          (add_all table2_data.*1 processed,
           table_instr "Plant Characteristics" table2_data)
        else if Py.contains "planting guide step" (Py.lower key) then
          ({[key]} ∪ processed, [SteppedItem key (trailing key) value])
        else if Py.startswith "FAQ " key then
          ({[key]} ∪ processed, [FaqItem key (trailing key) value])
        else if Py.contains "why chose this product" (Py.lower key)
                && negb (Py.contains "title" (Py.lower key)) then
          ({[key]} ∪ processed, [])
        else if negb (bool_decide (key ∈ processed)) then
          ({[key]} ∪ processed, [render_plain key formatted_key value])
        else (processed, [])
    end.

(** The loop itself, over the remaining [items]. *)
Fixpoint process_fields (product_data : record) (items : list (string * string))
    (processed : gset string) : gset string * list instr :=
  match items with
  | [] => (processed, [])
  | (key, value) :: rest =>
      let '(processed1, out1) := process_field product_data processed key value in
      let '(processed2, out2) := process_fields product_data rest processed1 in
      (processed2, out1 ++ out2)
  end.

(** [create_product_document(product_data)]: the final
    [processed_fields] and the calls made on the document. *)
Definition create_product_document (product_data : record)
    : gset string * list instr :=
  let title := Title (get_field "Title" "Unknown Product" product_data) in
  let '(processed, out) := process_fields product_data product_data {["Title"]} in
  (processed, title :: out).

(** The items the loop runs over are items of the record, each key with
    the value the dict has for it. *)
Definition items_of_record (product_data : record)
    (items : list (string * string)) : Prop :=
  forall k v, (k, v) ∈ items -> lookup_field k product_data = Some v.

Definition consumed (product_data : record) : gset string :=
  fst (create_product_document product_data).

Definition rendered (product_data : record) : list instr :=
  snd (create_product_document product_data).

(** ** The command line of [generate_product_docs.py] *)

(** What a run of the script leaves behind: the documents saved
    ([doc.save(output_path)], path and content) and how it ended. *)
Inductive ending : Type :=
| Finished                      (* ran to the end, exit status 0 *)
| Exit (status : nat)           (* [sys.exit(status)] *)
| Uncaught (exc : string).      (* traceback, exit status 1 *)

Record run : Type := {
  saved : list (string * list instr);
  stdout : list string;
  ended : ending
}.

Definition nat_to_str (n : nat) : string :=
  DecimalString.NilEmpty.string_of_uint (Nat.to_uint n).

Definition output_path (filename : string) : string :=
  "Product_Documents/" +:+ filename +:+ ".docx".

(** The body of the loop of [main()], for the [i]-th product. *)
Definition generate_one (i : nat) (product : record) : string * list instr :=
  let product_name := get_field "Title" ("Product_" +:+ nat_to_str i) product in
  let filename := clean_filename product_name in
  (output_path filename, snd (create_product_document product)).

Fixpoint generate_from (i : nat) (products : list record)
    : list (string * list instr) :=
  match products with
  | [] => []
  | product :: rest => generate_one i product :: generate_from (S i) rest
  end.

(** The two messages of the loop body for the [i]-th product. *)
Definition messages_of (i : nat) (product : record) : list string :=
  let product_name := get_field "Title" ("Product_" +:+ nat_to_str i) product in
  ["Generating document for: " +:+ product_name;
   "  Saved: " +:+ fst (generate_one i product)].

Fixpoint messages_from (i : nat) (products : list record) : list string :=
  match products with
  | [] => []
  | product :: rest => messages_of i product ++ messages_from (S i) rest
  end.

(** [main()]: the documents saved and the lines printed, one entry per
    call of [print]; the last message starts with a newline. *)
Definition main (products : list record) : run :=
  {| saved := generate_from 1 products;
     stdout :=
       ("Found " +:+ nat_to_str (length products) +:+ " products to process...")
       :: messages_from 1 products
       ++ [String "010"
             ("Completed! Generated " +:+ nat_to_str (length products)
              +:+ " product documents in 'Product_Documents' folder.")];
     ended := Finished |}.

(** The names bound at module level when the [__main__] block runs:
    the imports, the [def]s, [f] and [products] of the [with] statement
    at the top, and [sys].  ([os] is imported inside [main()] only.) *)
Definition module_names : list string :=
  ["json"; "re"; "Document"; "Inches"; "Pt"; "WD_ALIGN_PARAGRAPH";
   "OxmlElement"; "qn"; "f"; "products"; "clean_filename";
   "add_formatted_text"; "is_title_field"; "format_field_name"; "add_table";
   "create_product_document"; "main"; "sys"].

Definition bound (name : string) : bool := Py.in_list name module_names.

Definition name_error (name : string) : ending :=
  Uncaught ("NameError: name '" +:+ name +:+ "' is not defined").

(** [for product in products: if product.get('Title', '').lower() ==
    product_name.lower(): target_product = product; break] *)
Fixpoint find_product (product_name : string) (products : list record)
    : option record :=
  match products with
  | [] => None
  | product :: rest =>
      if String.eqb (Py.lower (get_field "Title" "" product)) (Py.lower product_name)
      then Some product
      else find_product product_name rest
  end.

(** The [--product] branch once [load_products()] has returned
    [products]. *)
Definition regenerate (product_name : string) (products : list record) : run :=
  match find_product product_name products with
  | Some target_product =>
      if negb (Py.truthy_record target_product) then
        {| saved := [];
           stdout := ["Product '" +:+ product_name +:+ "' not found in products database."];
           ended := Exit 1 |}
      else if negb (bound "os") then
        {| saved := [];
           stdout := ["Regenerating document for: " +:+ product_name];
           ended := name_error "os" |}
      else
        match lookup_field "Title" target_product with
        | None =>
            {| saved := [];
               stdout := ["Regenerating document for: " +:+ product_name];
               ended := Uncaught "KeyError: 'Title'" |}
        | Some title =>
            let path := output_path (clean_filename title) in
            {| saved := [(path, snd (create_product_document target_product))];
               stdout := ["Regenerating document for: " +:+ product_name;
                          "Document regenerated: " +:+ path];
               ended := Finished |}
        end
  | None =>
      {| saved := [];
         stdout := ["Product '" +:+ product_name +:+ "' not found in products database."];
         ended := Exit 1 |}
  end.

(** The [if __name__ == "__main__":] block.  [products] is the content
    of [products_data.json], loaded by the [with] statement at the top
    of the module. *)
Definition script (argv : list string) (products : list record) : run :=
  match argv with
  | _ :: flag :: product_name :: _ =>
      if String.eqb flag "--product" then
        if bound "load_products" then regenerate product_name products
        else {| saved := []; stdout := []; ended := name_error "load_products" |}
      else main products
  | _ => main products
  end.

(** ** JSON text, as [json.loads] reads it *)

Module Json.

#[local] Set Warnings "-register-all".

(** The Python values [json.loads] builds.  A number keeps its
    literal; a dict is its items in insertion order. *)
Inductive value : Type :=
| JNull
| JBool (b : bool)
| JNum (lit : string)
| JStr (s : string)
| JArr (elems : list value)
| JObj (items : list (string * value)).

Definition quote : ascii := "034"%char.
Definition backslash : ascii := "092"%char.

(** [q s] is [s] with every apostrophe replaced by a double quote; it
    is used to write JSON text. *)
Definition q (s : string) : string :=
  Py.smap (fun c => if Ascii.eqb c "'" then quote else c) s.

Definition is_json_space (c : ascii) : bool :=
  Ascii.eqb c " " || Ascii.eqb c "009" || Ascii.eqb c "010" || Ascii.eqb c "013".

Definition skip_ws (s : string) : string := Py.lstrip is_json_space s.

Definition is_hex (c : ascii) : bool :=
  Py.is_digit c || Py.between 65 70 c || Py.between 97 102 c.

(** The body of a string after its opening quote, up to the closing
    quote (strict mode: no control character).  The one-letter
    escapes are decoded; a [\uXXXX] escape is checked and kept as
    written. *)
Fixpoint scan_string (s : string) : option (string * string) :=
  match s with
  | EmptyString => None
  | String c rest =>
      if Ascii.eqb c quote then Some (EmptyString, rest)
      else if Ascii.eqb c backslash then
        match rest with
        | String e rest1 =>
            let simple (d : ascii) :=
              match scan_string rest1 with
              | Some (body, rest2) => Some (String d body, rest2)
              | None => None
              end in
            if Ascii.eqb e quote then simple quote
            else if Ascii.eqb e backslash then simple backslash
            else if Ascii.eqb e "/" then simple "/"%char
            else if Ascii.eqb e "b" then simple "008"%char
            else if Ascii.eqb e "f" then simple "012"%char
            else if Ascii.eqb e "n" then simple "010"%char
            else if Ascii.eqb e "r" then simple "013"%char
            else if Ascii.eqb e "t" then simple "009"%char
            else if Ascii.eqb e "u" then
              match rest1 with
              | String h1 (String h2 (String h3 (String h4 rest2))) =>
                  if is_hex h1 && is_hex h2 && is_hex h3 && is_hex h4 then
                    match scan_string rest2 with
                    | Some (body, rest3) =>
                        Some (String backslash (String "u" (String h1 (String h2
                               (String h3 (String h4 body))))), rest3)
                    | None => None
                    end
                  else None
              | _ => None
              end
            else None
        | EmptyString => None
        end
      else if Py.code c <? 32 then None
      else
        match scan_string rest with
        | Some (body, rest1) => Some (String c body, rest1)
        | None => None
        end
  end.

(** The longest prefix of digits, and what follows. *)
Fixpoint digits (s : string) : string * string :=
  match s with
  | String c rest =>
      if Py.is_digit c then
        let '(ds, rest1) := digits rest in (String c ds, rest1)
      else (EmptyString, s)
  | EmptyString => (EmptyString, EmptyString)
  end.

(** The number pattern of the scanner at the start of [s]: an
    optional minus sign, [0] or a digit run that does not start with
    [0], an optional fraction (a dot and at least one digit) and an
    optional exponent ([e] or [E], an optional sign, at least one
    digit). *)
Definition scan_int (s : string) : option (string * string) :=
  match s with
  | String c rest =>
      if Ascii.eqb c "0" then Some ("0", rest)
      else if Py.is_digit c then
        let '(ds, rest1) := digits rest in Some (String c ds, rest1)
      else None
  | EmptyString => None
  end.

Definition scan_frac (s : string) : string * string :=
  match s with
  | String c rest =>
      if Ascii.eqb c "." then
        match digits rest with
        | (String d ds, rest1) => (String c (String d ds), rest1)
        | (EmptyString, _) => (EmptyString, s)
        end
      else (EmptyString, s)
  | EmptyString => (EmptyString, s)
  end.

Definition scan_exp (s : string) : string * string :=
  match s with
  | String c rest =>
      if Ascii.eqb c "e" || Ascii.eqb c "E" then
        let '(sign, rest0) :=
          match rest with
          | String g rest' =>
              if Ascii.eqb g "+" || Ascii.eqb g "-"
              then (String g EmptyString, rest') else (EmptyString, rest)
          | EmptyString => (EmptyString, rest)
          end in
        match digits rest0 with
        | (String d ds, rest1) => (String c (sign +:+ String d ds), rest1)
        | (EmptyString, _) => (EmptyString, s)
        end
      else (EmptyString, s)
  | EmptyString => (EmptyString, s)
  end.

Definition scan_number (s : string) : option (string * string) :=
  let '(sign, s0) :=
    match s with
    | String c rest => if Ascii.eqb c "-" then ("-", rest) else (EmptyString, s)
    | EmptyString => (EmptyString, s)
    end in
  match scan_int s0 with
  | Some (int, s1) =>
      let '(frac, s2) := scan_frac s1 in
      let '(exp, s3) := scan_exp s2 in
      Some (sign +:+ int +:+ frac +:+ exp, s3)
  | None => None
  end.

(** [s[idx:idx+len(w)] == w], returning what follows. *)
Fixpoint word (w s : string) : option string :=
  match w, s with
  | EmptyString, _ => Some s
  | String a w', String b s' => if Ascii.eqb a b then word w' s' else None
  | String _ _, EmptyString => None
  end.

(** [d[k] = v] on the items of a dict. *)
Fixpoint dict_set (k : string) (v : value) (items : list (string * value))
    : list (string * value) :=
  match items with
  | [] => [(k, v)]
  | (k', v') :: rest =>
      if String.eqb k k' then (k, v) :: rest
      else (k', v') :: dict_set k v rest
  end.

(** [scan_once]: one value at the start of [s].  [fuel] bounds the
    nesting depth and, inside, the number of elements of an array or
    object; the length of the text is always enough. *)
Fixpoint scan_once (fuel : nat) (s : string) : option (value * string) :=
  match fuel with
  | 0 => None
  | S fuel' =>
      let elements :=
        fix elements (n : nat) (s : string) (acc : list value)
            : option (value * string) :=
          match n with
          | 0 => None
          | S n' =>
              match scan_once fuel' s with
              | Some (v, rest) =>
                  match skip_ws rest with
                  | String c rest1 =>
                      if Ascii.eqb c "]" then Some (JArr (rev (v :: acc)), rest1)
                      else if Ascii.eqb c "," then elements n' (skip_ws rest1) (v :: acc)
                      else None
                  | EmptyString => None
                  end
              | None => None
              end
          end in
      let members :=
        fix members (n : nat) (s : string) (acc : list (string * value))
            : option (value * string) :=
          match n with
          | 0 => None
          | S n' =>
              match s with
              | String c0 s0 =>
                  if Ascii.eqb c0 quote then
                    match scan_string s0 with
                    | Some (k, rest) =>
                        match skip_ws rest with
                        | String c rest1 =>
                            if Ascii.eqb c ":" then
                              match scan_once fuel' (skip_ws rest1) with
                              | Some (v, rest2) =>
                                  match skip_ws rest2 with
                                  | String c2 rest3 =>
                                      if Ascii.eqb c2 "}" then
                                        Some (JObj (dict_set k v acc), rest3)
                                      else if Ascii.eqb c2 "," then
                                        members n' (skip_ws rest3) (dict_set k v acc)
                                      else None
                                  | EmptyString => None
                                  end
                              | None => None
                              end
                            else None
                        | EmptyString => None
                        end
                    | None => None
                    end
                  else None
              | EmptyString => None
              end
          end in
      match s with
      | EmptyString => None
      | String c rest =>
          if Ascii.eqb c quote then
            match scan_string rest with
            | Some (body, rest1) => Some (JStr body, rest1)
            | None => None
            end
          else if Ascii.eqb c "{" then
            match skip_ws rest with
            | String c1 rest1 =>
                if Ascii.eqb c1 "}" then Some (JObj [], rest1)
                else members (String.length s) (skip_ws rest) []
            | EmptyString => None
            end
          else if Ascii.eqb c "[" then
            match skip_ws rest with
            | String c1 rest1 =>
                if Ascii.eqb c1 "]" then Some (JArr [], rest1)
                else elements (String.length s) (skip_ws rest) []
            | EmptyString => None
            end
          else
            match word "null" s, word "true" s, word "false" s with
            | Some rest1, _, _ => Some (JNull, rest1)
            | _, Some rest1, _ => Some (JBool true, rest1)
            | _, _, Some rest1 => Some (JBool false, rest1)
            | None, None, None =>
                match scan_number s with
                | Some (lit, rest1) => Some (JNum lit, rest1)
                | None =>
                    match word "NaN" s, word "Infinity" s, word "-Infinity" s with
                    | Some rest1, _, _ => Some (JNum "NaN", rest1)
                    | _, Some rest1, _ => Some (JNum "Infinity", rest1)
                    | _, _, Some rest1 => Some (JNum "-Infinity", rest1)
                    | None, None, None => None
                    end
                end
            end
      end
  end.

(** [json.loads(s)]: one value between optional whitespace, and
    nothing else; [None] is [JSONDecodeError]. *)
Definition loads (s : string) : option value :=
  match scan_once (S (String.length s)) (skip_ws s) with
  | Some (v, rest) =>
      match skip_ws rest with
      | EmptyString => Some v
      | String _ _ => None
      end
  | None => None
  end.

(** Is the number written [lit] zero?  Only the digits of the mantissa
    are looked at: a literal that is not zero but so small that [float]
    rounds it to [0.0] is not taken as zero. *)
Fixpoint zero_literal (lit : string) : bool :=
  match lit with
  | EmptyString => true
  | String c rest =>
      if Ascii.eqb c "e" || Ascii.eqb c "E" then true
      else if Ascii.eqb c "0" || Ascii.eqb c "-" || Ascii.eqb c "." then zero_literal rest
      else false
  end.

(** Python truthiness: [not v] holds of [None], [False], zero, and
    the empty string, list and dict. *)
Definition truthy (v : value) : bool :=
  match v with
  | JNull => false
  | JBool b => b
  | JNum lit => negb (zero_literal lit)
  | JStr s => Py.truthy s
  | JArr elems => Py.truthy_record elems
  | JObj items => Py.truthy_record items
  end.

Fixpoint dict_get (k : string) (items : list (string * value)) : option value :=
  match items with
  | [] => None
  | (k', v) :: rest => if String.eqb k k' then Some v else dict_get k rest
  end.

End Json.

(** ** [product_requester.py] *)

(** What follows the first [c] of [s]. *)
Fixpoint after_first (c : ascii) (s : string) : option string :=
  match s with
  | EmptyString => None
  | String a rest => if Ascii.eqb a c then Some rest else after_first c rest
  end.

(** [s] up to and including its last [c]. *)
Fixpoint upto_last (c : ascii) (s : string) : option string :=
  match s with
  | EmptyString => None
  | String a rest =>
      match upto_last c rest with
      | Some r => Some (String a r)
      | None => if Ascii.eqb a c then Some (String a EmptyString) else None
      end
  end.

(** [re.search(r'\{.*\}', text, re.DOTALL)] and [.group()] of the
    match: the leftmost match starts at the first opening brace that has
    a closing brace after it, and the star is greedy. *)
Definition search_braces (text : string) : option string :=
  match after_first "{" text with
  | Some rest =>
      match upto_last "}" rest with
      | Some body => Some (String "{" body)
      | None => None
      end
  | None => None
  end.

(** The store and the environment [add_new_product] works in:
    [OPENAI_API_KEY], the parsed content of [products_data.json]
    ([None] when the file does not exist) and the lists written by
    [save_products], latest first. *)
Record world : Type := {
  environ_api_key : option string;
  products_data_json : option (list Json.value);
  save_calls : list (list Json.value)
}.

(** [load_existing_products()] *)
Definition load_existing_products (w : world) : list Json.value :=
  default [] (products_data_json w).

(** [save_products(products)] *)
Definition save_products (products : list Json.value) (w : world) : world :=
  {| environ_api_key := environ_api_key w;
     products_data_json := Some products;
     save_calls := products :: save_calls w |}.

(** [existing.get('Title', '').lower()]; [None] when Python raises
    [AttributeError] ([existing] is not a dict, or its title is not
    text). *)
Definition title_lower (existing : Json.value) : option string :=
  match existing with
  | Json.JObj items =>
      match Json.dict_get "Title" items with
      | None => Some (Py.lower "")
      | Some (Json.JStr t) => Some (Py.lower t)
      | Some _ => None
      end
  | _ => None
  end.

(** The duplicate check: [Some true] when a stored title equals
    [title] up to case, [Some false] when the loop ends without a
    match, [None] when it raises. *)
Fixpoint already_exists (title : string) (existing_products : list Json.value)
    : option bool :=
  match existing_products with
  | [] => Some false
  | existing :: rest =>
      match title_lower existing with
      | None => None
      | Some t =>
          if String.eqb t (Py.lower title) then Some true
          else already_exists title rest
      end
  end.

Definition truthy_opt (o : option string) : bool :=
  match o with Some s => Py.truthy s | None => false end.

Section Requester.

(** [json.loads]; [Json.loads] is the instance used on concrete
    text. *)
Variable json_loads : string -> option Json.value.

(** The inner [try] of [get_product_info_from_openai], on the
    stripped response text; [None] when an exception reaches the
    outer handler. *)
Definition parse_response (response_text : string) : option Json.value :=
  match json_loads response_text with
  | Some product_data => Some product_data
  | None =>
      match search_braces response_text with
      | Some json_match => json_loads json_match
      | None => None
      end
  end.

(** [get_product_info_from_openai]: [response] is the content of the
    service's answer, [None] when the call raises.  The result is the
    Python value returned, [JNull] being [None]. *)
Definition get_product_info_from_openai (response : option string) : Json.value :=
  match response with
  | Some content =>
      default Json.JNull (parse_response (Py.strip Py.is_space content))
  | None => Json.JNull
  end.

(** [add_new_product]: the value returned and the world left behind;
    [None] when an exception escapes.  The service is called at most
    once and [response] is what it answers; [scientific_name_or_mix]
    enters the prompt only and is left out, as are the messages
    printed. *)
Definition add_new_product (title : string) (api_key : option string)
    (is_mix : bool) (mix_components : option (list string))
    (response : option string) (w : world) : option (bool * world) :=
  let api_key := if truthy_opt api_key then api_key else environ_api_key w in
  if negb (truthy_opt api_key) then Some (false, w)
  else if is_mix && negb (bool_decide (is_Some mix_components)) then None
  else
    let product_data := get_product_info_from_openai response in
    if negb (Json.truthy product_data) then Some (false, w)
    else
      let existing_products := load_existing_products w in
      match already_exists title existing_products with
      | None => None
      | Some true => Some (false, w)
      | Some false =>
          Some (true, save_products (existing_products ++ [product_data]) w)
      end.

End Requester.

(** ** The outcomes of one iteration

    The branches of the loop body as a relation: the field [key] with
    value [value], met with [processed] as the set of processed fields,
    leaves the set [processed'] and makes the calls [out].
    [process_field_outcome] shows that [process_field] always takes one
    of them. *)

(** An instruction that prints the value of one field. *)
Inductive single_instr (key value : string) : instr -> Prop :=
| single_heading :
    single_instr key value (Heading key 2 value 16)
| single_labeled (label : string) (size : nat) :
    single_instr key value (LabeledParagraph key label value size)
| single_step (step_num : string) :
    single_instr key value (SteppedItem key step_num value)
| single_faq (faq_num : string) :
    single_instr key value (FaqItem key faq_num value).

Inductive field_outcome (product_data : record) (processed : gset string)
    (key value : string) : gset string -> list instr -> Prop :=
| outcome_skipped :
    Py.truthy value = false \/ key ∈ processed ->
    field_outcome product_data processed key value processed []
| outcome_technical :
    Py.truthy value = true -> key ∉ processed ->
    key ∈ skip_fields ->
    field_outcome product_data processed key value ({[key]} ∪ processed) []
| outcome_table1 :
    Py.truthy value = true -> key ∉ processed ->
    key ∈ table1_fields ->
    field_outcome product_data processed key value
      (add_all (collect table1_fields product_data).*1 processed)
      (table_instr "Growing Conditions" (collect table1_fields product_data))
| outcome_single (i : instr) :
    Py.truthy value = true -> key ∉ processed ->
    key ∉ table1_fields ->
    single_instr key value i ->
    field_outcome product_data processed key value ({[key]} ∪ processed) [i]
| outcome_pair (content_key : string) :
    Py.truthy value = true -> key ∉ processed ->
    key ∉ table1_fields ->
    Py.contains "why chose this product title" (Py.lower key) = true ->
    content_key = "Why chose this product " +:+ trailing key ->
    present_nonempty content_key product_data = true ->
    field_outcome product_data processed key value
      ({[content_key]} ∪ ({[key]} ∪ processed))
      [Heading key 3 value 14;
       Paragraph content_key (get_field content_key "" product_data)]
| outcome_unpaired :
    Py.truthy value = true -> key ∉ processed ->
    key ∉ table1_fields ->
    Py.contains "why chose this product title" (Py.lower key) = true ->
    present_nonempty ("Why chose this product " +:+ trailing key) product_data
      = false ->
    field_outcome product_data processed key value processed []
| outcome_table2 :
    Py.truthy value = true -> key ∉ processed ->
    key ∈ table2_fields ->
    why_chose_done product_data processed = true ->
    field_outcome product_data processed key value
      (add_all (collect table2_fields product_data).*1 processed)
      (table_instr "Plant Characteristics" (collect table2_fields product_data))
| outcome_orphan :
    Py.truthy value = true -> key ∉ processed ->
    key ∉ table1_fields ->
    field_outcome product_data processed key value ({[key]} ∪ processed) [].

Ltac field_cases :=
  unfold process_field, render_plain;
  repeat case_match.

(** Boolean tests in the hypotheses, read as propositions. *)
Ltac bool_hyps :=
  repeat match goal with
    | H : _ || _ = false |- _ => apply orb_false_iff in H as [? ?]
    | H : _ && _ = true |- _ => apply andb_true_iff in H as [? ?]
    | H : _ || _ = true |- _ => apply orb_true_iff in H as [H|H]
    | H : _ && _ = false |- _ => apply andb_false_iff in H as [H|H]
    | H : negb _ = true |- _ => apply negb_true_iff in H
    | H : negb _ = false |- _ => apply negb_false_iff in H
    | H : bool_decide _ = true |- _ => apply bool_decide_eq_true in H
    | H : bool_decide _ = false |- _ => apply bool_decide_eq_false in H
    end.

(** ** Sample data *)

(** A record whose Plant-Characteristics field comes before a
    Why-chose pair. *)
Definition early_characteristic : record :=
  [("Title", "Prairie Mix");
   ("Sun/Shade", "Full Sun");
   ("Why chose this product Title 1", "Hardy");
   ("Why chose this product 1", "It survives drought.");
   ("Uses", "Borders")].

(** A record with a Why-chose title and no content for it. *)
Definition orphan_title : record :=
  [("Title", "Blue Flax");
   ("Why chose this product Title 3", "Hardy")].

(** A record with a field of empty value. *)
Definition empty_color : record :=
  [("Title", "Blue Flax"); ("Color", ""); ("Uses", "Borders")].

(** A record with three of the seven Growing-Conditions fields, not in
    the order of [table1_fields], and other fields around them. *)
Definition three_conditions : record :=
  [("Title", "Blue Flax");
   ("Planting Depth", "1/8 inch");
   ("SKU", "W-BF-0.25-LB");
   ("Soil pH", "6.0-7.5");
   ("Days to Maturity", "");
   ("Soil Preference", "Well-drained");
   ("FAQ 1", "Is it perennial? Yes.")].

(** A record with a complete Why-chose pair. *)
Definition paired : record :=
  [("Title", "Blue Flax");
   ("Why chose this product Title 3", "Hardy");
   ("Why chose this product 2", "Wrong one.");
   ("Why chose this product 3", "It survives drought.")].

(** An answer of the service with text around the object, and a brace
    in the trailing text. *)
Definition chatty_reply : string :=
  Json.q "Sure! {'Title': 'Blue Flax'} Let me know if {this} helps.".

Definition stored_blue_flax : world :=
  {| environ_api_key := Some "sk-test";
     products_data_json := Some [Json.JObj [("Title", Json.JStr "Blue FLAX")]];
     save_calls := [] |}.

(** ** Numerals *)

(** A numeral: a text of decimal digits, not empty. *)
Definition is_numeral (n : string) : bool :=
  Py.truthy n && all_chars Py.is_digit n.

(** ** Text outside ASCII

    A title is free text.  [clean_filename] and [generate_sku] apply
    the class [\w] (and [\s]) of [re] to it and the duplicate checks
    compare titles after [str.lower]: on a [str] these are the classes
    and the case mappings of Unicode.  In this module a text read
    character by character is the list of its code points; below 128
    the classes and the upper case are computed as in [Py], from 128 on
    they are read from the tables of the Unicode database
    ([str.isalnum], [str.isspace], [str.upper]), which are parameters.
    [str.lower] on a whole title is a parameter as well.
    [clean_filename], [find_product], [title_lower], [already_exists]
    and [add_new_product] outside this module are these definitions on
    ASCII text. *)


Module Unicode.

Definition text : Type := list N.

(** The code points of an ASCII text. *)
Definition of_string (s : string) : text :=
  map N_of_ascii (list_ascii_of_string s).

Definition hyphen : N := 45.
Definition underscore : N := 95.

(** [s.lstrip('_')] and [s.rstrip('_')] *)
Fixpoint lstrip_underscores (s : text) : text :=
  match s with
  | [] => []
  | c :: s' => if (c =? underscore)%N then lstrip_underscores s' else s
  end.

Fixpoint rstrip_underscores (s : text) : text :=
  match s with
  | [] => []
  | c :: s' =>
      match rstrip_underscores s' with
      | [] => if (c =? underscore)%N then [] else [c]
      | r => c :: r
      end
  end.

(** [s.strip('_')] *)
Definition strip_underscores (s : text) : text :=
  rstrip_underscores (lstrip_underscores s).

Section Tables.

(** [chr(c).isalnum()] and [chr(c).isspace()] for [c] from 128 on. *)
Variable isalnum : N -> bool.
Variable isspace : N -> bool.

(** The class [\w] of [re] on a [str] pattern: the alphanumeric
    characters and the underscore. *)
Definition is_word (c : N) : bool :=
  if (c <? 128)%N then Py.is_word (ascii_of_N c) else isalnum c.

(** The class [\s]. *)
Definition is_space (c : N) : bool :=
  if (c <? 128)%N then Py.is_space (ascii_of_N c) else isspace c.

(** The characters that the class [[^\w\s-]] does not match. *)
Definition keep_char (c : N) : bool :=
  is_word c || is_space c || (c =? hyphen)%N.

(** The class [[-\s]]. *)
Definition sep_char (c : N) : bool := (c =? hyphen)%N || is_space c.

(** [re.sub(r'[^\w\s-]', '', name)] *)
Definition strip_special (name : text) : text := List.filter keep_char name.

(** [re.sub(r'[-\s]+', '_', cleaned)]: every maximal run of hyphens
    and whitespace is replaced by one underscore; [in_run] tells that
    the run of the current character has been replaced already. *)
Fixpoint collapse_runs (in_run : bool) (cleaned : text) : text :=
  match cleaned with
  | [] => []
  | c :: rest =>
      if sep_char c then
        if in_run then collapse_runs true rest
        else underscore :: collapse_runs true rest
      else c :: collapse_runs false rest
  end.

(** [clean_filename(name)] *)
Definition clean_filename (name : text) : text :=
  let cleaned := strip_special name in
  let cleaned := collapse_runs false cleaned in
  strip_underscores cleaned.

End Tables.

Section Case.

(** [json.loads] and [str.lower]. *)
Variable json_loads : string -> option Json.value.
Variable str_lower : string -> string.

(** [for product in products: if product.get('Title', '').lower() ==
    product_name.lower(): target_product = product; break] *)
Fixpoint find_product (product_name : string) (products : list record)
    : option record :=
  match products with
  | [] => None
  | product :: rest =>
      if String.eqb (str_lower (get_field "Title" "" product))
           (str_lower product_name)
      then Some product
      else find_product product_name rest
  end.

(** [existing.get('Title', '').lower()]; [None] when Python raises
    [AttributeError] ([existing] is not a dict, or its title is not
    text). *)
Definition title_lower (existing : Json.value) : option string :=
  match existing with
  | Json.JObj items =>
      match Json.dict_get "Title" items with
      | None => Some (str_lower "")
      | Some (Json.JStr t) => Some (str_lower t)
      | Some _ => None
      end
  | _ => None
  end.

(** The duplicate check: [Some true] when a stored title equals
    [title] after [lower()], [Some false] when the loop ends without a
    match, [None] when it raises. *)
Fixpoint already_exists (title : string) (existing_products : list Json.value)
    : option bool :=
  match existing_products with
  | [] => Some false
  | existing :: rest =>
      match title_lower existing with
      | None => None
      | Some t =>
          if String.eqb t (str_lower title) then Some true
          else already_exists title rest
      end
  end.

(** [add_new_product]: the value returned and the world left behind;
    [None] when an exception escapes. *)
Definition add_new_product (title : string) (api_key : option string)
    (is_mix : bool) (mix_components : option (list string))
    (response : option string) (w : world) : option (bool * world) :=
  let api_key := if truthy_opt api_key then api_key else environ_api_key w in
  if negb (truthy_opt api_key) then Some (false, w)
  else if is_mix && negb (bool_decide (is_Some mix_components)) then None
  else
    let product_data := get_product_info_from_openai json_loads response in
    if negb (Json.truthy product_data) then Some (false, w)
    else
      let existing_products := load_existing_products w in
      match already_exists title existing_products with
      | None => None
      | Some true => Some (false, w)
      | Some false =>
          Some (true, save_products (existing_products ++ [product_data]) w)
      end.

End Case.

Section Sku.

(** [chr(c).isalnum()] and [chr(c).upper()] for [c] from 128 on; the
    upper case of one character can have several. *)
Variable isalnum : N -> bool.
Variable upper : N -> text.

(** [re.findall(r'\b\w+', s)]: the maximal runs of word characters, in
    order. *)
Fixpoint findall_words (s : text) : list text :=
  match s with
  | [] => []
  | c :: s' =>
      if negb (is_word isalnum c) then findall_words s'
      else
        match s' with
        | [] => [[c]]
        | c' :: _ =>
            if negb (is_word isalnum c') then [c] :: findall_words s'
            else
              match findall_words s' with
              | w :: ws => (c :: w) :: ws
              | [] => [[c]]
              end
        end
  end.

(** [chr(c).upper()] *)
Definition char_upper (c : N) : text :=
  if (c <? 128)%N then [N_of_ascii (Py.to_upper (ascii_of_N c))] else upper c.

(** [word[0].upper()]; no word of [findall_words] is empty. *)
Definition initial (word : text) : text :=
  match word with
  | [] => []
  | c :: _ => char_upper c
  end.

(** [generate_sku(title)] *)
Definition generate_sku (title : text) : text :=
  let words := findall_words title in
  let sku_letters := concat (map initial (take 4 words)) in
  of_string "W-" ++ sku_letters ++ of_string "-0.25-LB".

End Sku.

End Unicode.

(** ** More sample data *)

(** A record with a Why-chose title that has no content, before two
    Plant-Characteristics fields. *)
Definition title_without_content : record :=
  [("Title", "Blue Flax");
   ("Why chose this product Title 1", "Hardy");
   ("Uses", "Borders");
   ("Color", "Blue")].

(** The same record with the content of the title. *)
Definition title_with_content : record :=
  [("Title", "Blue Flax");
   ("Why chose this product Title 1", "Hardy");
   ("Why chose this product 1", "It survives drought.");
   ("Uses", "Borders");
   ("Color", "Blue")].



(** Code points outside ASCII used in examples: e with acute accent
    (233) and n with tilde (241) are alphanumeric, the no-break space
    (160) is whitespace; the upper case of n with tilde is 209 and that
    of the sharp s (223) is two letters S. *)
Definition sample_isalnum (c : N) : bool :=
  (c =? 223)%N || (c =? 233)%N || (c =? 241)%N.
Definition sample_isspace (c : N) : bool := (c =? 160)%N.
Definition sample_upper (c : N) : Unicode.text :=
  if (c =? 223)%N then [83; 83]%N
  else if (c =? 241)%N then [209]%N
  else [c].

(** Case folding that knows the capital E with acute accent (bytes 195 137
    in UTF-8) besides the ASCII letters. *)
Fixpoint sample_lower (s : string) : string :=
  match s with
  | String "195" (String "137" rest) =>
      String "195" (String "169" (sample_lower rest))
  | String c rest => String (Py.to_lower c) (sample_lower rest)
  | EmptyString => EmptyString
  end.

(** * Properties *)

(** ** Strings *)

Lemma in_list_elem (x : string) (xs : list string) :
  Py.in_list x xs = true <-> x ∈ xs.
Proof.
  unfold Py.in_list. rewrite existsb_exists. split.
  - intros (y & Hy & Heq). apply String.eqb_eq in Heq. subst.
    by apply list_elem_of_In.
  - intros Hx. exists x. split; [by apply list_elem_of_In | apply String.eqb_refl].
Qed.

Lemma in_list_not_elem (x : string) (xs : list string) :
  Py.in_list x xs = false <-> x ∉ xs.
Proof.
  rewrite <- in_list_elem. destruct (Py.in_list x xs); split; congruence.
Qed.

Lemma truthy_nonempty (s : string) : Py.truthy s = true <-> s ≠ "".
Proof. destruct s; simpl; split; congruence. Qed.

Lemma truthy_empty (s : string) : Py.truthy s = false <-> s = "".
Proof. destruct s; simpl; split; congruence. Qed.


Lemma append_cons (a : ascii) (s t : string) :
  String a s +:+ t = String a (s +:+ t).
Proof. reflexivity. Qed.

Lemma append_empty_l (t : string) : "" +:+ t = t.
Proof. reflexivity. Qed.

Lemma all_chars_app (p : ascii -> bool) (s t : string) :
  all_chars p (s +:+ t) = all_chars p s && all_chars p t.
Proof.
  induction s as [|c s IH]; [done|].
  rewrite append_cons. simpl. rewrite IH. by rewrite andb_assoc.
Qed.

(** ** [clean_filename] *)


Lemma sfilter_id (p : ascii -> bool) (s : string) :
  all_chars p s = true -> Py.sfilter p s = s.
Proof.
  induction s as [|c s IH]; [done|]. simpl.
  intros [Hc Hs]%andb_true_iff. rewrite Hc. f_equal. auto.
Qed.

Lemma sfilter_app (p : ascii -> bool) (s t : string) :
  Py.sfilter p (s +:+ t) = Py.sfilter p s +:+ Py.sfilter p t.
Proof.
  induction s as [|c s IH]; [done|].
  rewrite append_cons. simpl. destruct (p c); by rewrite IH.
Qed.





Lemma lstrip_first (p : ascii -> bool) (s : string) (c : ascii) :
  first_char (Py.lstrip p s) = Some c -> p c = false.
Proof.
  induction s as [|a s IH]; [done|]. simpl.
  destruct (p a) eqn:Ha; [done|]. simpl. congruence.
Qed.

Lemma rstrip_first (p : ascii -> bool) (s : string) (c : ascii) :
  first_char (Py.rstrip p s) = Some c -> first_char s = Some c.
Proof.
  destruct s as [|a s]; [done|]. simpl.
  destruct (Py.rstrip p s); [destruct (p a)|]; simpl; congruence.
Qed.

Lemma rstrip_last (p : ascii -> bool) (s : string) (c : ascii) :
  last_char (Py.rstrip p s) = Some c -> p c = false.
Proof.
  induction s as [|a s IH]; [done|]. simpl.
  destruct (Py.rstrip p s) as [|d r] eqn:Hr.
  - destruct (p a) eqn:Ha; simpl; congruence.
  - intros H. apply IH. exact H.
Qed.

Lemma strip_ends (p : ascii -> bool) (s : string) (c : ascii) :
  first_char (Py.strip p s) = Some c \/ last_char (Py.strip p s) = Some c ->
  p c = false.
Proof.
  unfold Py.strip. intros [H|H].
  - eapply lstrip_first, rstrip_first, H.
  - eapply rstrip_last, H.
Qed.

Lemma alnum_keep (c : ascii) : is_alnum c = true -> keep_char c = true.
Proof.
  unfold is_alnum, keep_char, Py.is_word. intros ->. done.
Qed.

Lemma alnum_not_sep (c : ascii) : is_alnum c = true -> sep_char c = false.
Proof. destruct c as [[] [] [] [] [] [] [] []]; vm_compute; congruence. Qed.

Lemma alnum_not_underscore (c : ascii) :
  is_alnum c = true -> is_underscore c = false.
Proof.
  unfold is_alnum, is_underscore.
  destruct (Ascii.eqb_spec c "_") as [->|_]; [done|done].
Qed.

Lemma sep_keep (c : ascii) : sep_char c = true -> keep_char c = true.
Proof.
  unfold sep_char, keep_char.
  destruct (Py.is_word c), (Py.is_space c), (is_hyphen c); simpl; congruence.
Qed.

Lemma all_chars_impl (p q : ascii -> bool) (s : string) :
  (forall c, p c = true -> q c = true) ->
  all_chars p s = true -> all_chars q s = true.
Proof.
  intros Hpq. induction s as [|c s IH]; [done|]. simpl.
  intros [Hc Hs]%andb_true_iff. by rewrite (Hpq c Hc), IH.
Qed.

Lemma append_empty_r (s : string) : s +:+ "" = s.
Proof. induction s as [|c s IH]; [done|]. rewrite append_cons. by f_equal. Qed.

Lemma append_assoc (s t u : string) : (s +:+ t) +:+ u = s +:+ (t +:+ u).
Proof.
  induction s as [|c s IH]; [done|]. rewrite !append_cons. by f_equal.
Qed.

Lemma sub_runs_alnum (b : bool) (a t : string) :
  all_chars is_alnum a = true ->
  Py.sub_runs sep_char "_" b (a +:+ t) =
  a +:+ Py.sub_runs sep_char "_" (if Py.truthy a then false else b) t.
Proof.
  revert b. induction a as [|c a IH]; intros b; [done|].
  intros [Hc Ha]%andb_true_iff. rewrite !append_cons. simpl.
  rewrite (alnum_not_sep c Hc). f_equal. rewrite (IH false Ha).
  by destruct a.
Qed.

Lemma sub_runs_in_run (run t : string) :
  all_chars sep_char run = true ->
  Py.sub_runs sep_char "_" true (run +:+ t) = Py.sub_runs sep_char "_" true t.
Proof.
  induction run as [|c run IH]; [done|].
  intros [Hc Hr]%andb_true_iff. rewrite append_cons. simpl. rewrite Hc. auto.
Qed.

Lemma sub_runs_run (run t : string) :
  run ≠ "" -> all_chars sep_char run = true ->
  Py.sub_runs sep_char "_" false (run +:+ t) =
  "_" +:+ Py.sub_runs sep_char "_" true t.
Proof.
  destruct run as [|c run]; [done|]. intros _ [Hc Hr]%andb_true_iff.
  rewrite append_cons. simpl. rewrite Hc. f_equal. by apply sub_runs_in_run.
Qed.

Lemma last_char_app (s t : string) :
  t ≠ "" -> last_char (s +:+ t) = last_char t.
Proof.
  intros Ht. induction s as [|c s IH]; [done|].
  rewrite append_cons. simpl. rewrite IH.
  destruct (s +:+ t) eqn:E; [|done].
  destruct s; [by rewrite append_empty_l in E | by rewrite append_cons in E].
Qed.

Lemma last_char_all (p : ascii -> bool) (s : string) :
  s ≠ "" -> all_chars p s = true -> exists c, last_char s = Some c /\ p c = true.
Proof.
  induction s as [|a s IH]; [done|]. intros _ [Ha Hs]%andb_true_iff.
  destruct s as [|b s]; [by exists a|].
  destruct IH as (c & Hc & Hp); [done | done |]. by exists c.
Qed.

Lemma rstrip_id (p : ascii -> bool) (s : string) (c : ascii) :
  last_char s = Some c -> p c = false -> Py.rstrip p s = s.
Proof.
  intros Hl Hp. induction s as [|a s IH]; [done|].
  destruct s as [|b s].
  - simpl in *. injection Hl as ->. by rewrite Hp.
  - change (Py.rstrip p (String a (String b s)))
      with (match Py.rstrip p (String b s) with
            | EmptyString => if p a then EmptyString else String a EmptyString
            | r => String a r
            end).
    rewrite IH; [done | exact Hl].
Qed.

Lemma clean_two_words (a run b : string) :
  a ≠ "" -> b ≠ "" -> run ≠ "" ->
  all_chars is_alnum a = true -> all_chars is_alnum b = true ->
  all_chars sep_char run = true ->
  clean_filename (a +:+ run +:+ b) = a +:+ "_" +:+ b.
Proof.
  intros Ha Hb Hrun Haa Hab Hsep. unfold clean_filename.
  rewrite sfilter_id.
  2:{ rewrite !all_chars_app.
      rewrite (all_chars_impl _ _ a alnum_keep Haa),
        (all_chars_impl _ _ b alnum_keep Hab),
        (all_chars_impl _ _ run sep_keep Hsep). done. }
  rewrite (sub_runs_alnum false a _ Haa).
  assert (Py.truthy a = true) as -> by by apply truthy_nonempty.
  rewrite (sub_runs_run run b Hrun Hsep).
  rewrite <- (append_empty_r b) at 1.
  rewrite (sub_runs_alnum true b "" Hab). simpl Py.sub_runs.
  rewrite append_empty_r.
  unfold Py.strip.
  destruct a as [|c a]; [done|].
  apply andb_true_iff in Haa as [Hc _].
  rewrite append_cons. simpl Py.lstrip.
  rewrite (alnum_not_underscore c Hc).
  destruct (last_char_all is_alnum b Hb Hab) as (d & Hd & Hdd).
  apply (rstrip_id _ _ d).
  - rewrite <- append_cons, <- append_assoc. by rewrite last_char_app.
  - by apply alnum_not_underscore.
Qed.

(** ** [clean_filename] on any text *)

Lemma unicode_sep_true (isspace : N -> bool) (c : N) :
  Unicode.sep_char isspace c = true
  <-> c = 45%N \/ Unicode.is_space isspace c = true.
Proof.
  unfold Unicode.sep_char, Unicode.hyphen.
  rewrite orb_true_iff, N.eqb_eq. tauto.
Qed.

Lemma unicode_sep_false (isspace : N -> bool) (c : N) :
  Unicode.sep_char isspace c = false
  <-> c ≠ 45%N /\ Unicode.is_space isspace c = false.
Proof.
  unfold Unicode.sep_char, Unicode.hyphen.
  rewrite orb_false_iff, N.eqb_neq. tauto.
Qed.

Lemma unicode_kept_not_sep (isalnum isspace : N -> bool) (c : N) :
  Unicode.keep_char isalnum isspace c = true ->
  Unicode.sep_char isspace c = false ->
  Unicode.is_word isalnum c = true.
Proof.
  unfold Unicode.keep_char, Unicode.sep_char.
  destruct (Unicode.is_word isalnum c), (Unicode.is_space isspace c),
    (c =? Unicode.hyphen)%N; simpl; congruence.
Qed.

(** *** The classes below 128 *)

Lemma unicode_is_word_spec (isalnum : N -> bool) (c : N) :
  Unicode.is_word isalnum c =
  if (c <? 128)%N
  then ((65 <=? c) && (c <=? 90) || (97 <=? c) && (c <=? 122)
        || (48 <=? c) && (c <=? 57) || (c =? 95))%N
  else isalnum c.
Proof.
  unfold Unicode.is_word.
  destruct (c <? 128)%N eqn:Hc; [|done].
  apply N.ltb_lt in Hc.
  remember (ascii_of_N c) as a eqn:Ha.
  assert (c = N_of_ascii a) as Hca
    by (subst a; symmetry; apply N_ascii_embedding; lia).
  clear Ha Hc. subst c.
  destruct a as [[] [] [] [] [] [] [] []]; reflexivity.
Qed.

Lemma unicode_is_space_spec (isspace : N -> bool) (c : N) :
  Unicode.is_space isspace c =
  if (c <? 128)%N
  then ((9 <=? c) && (c <=? 13) || (28 <=? c) && (c <=? 32))%N
  else isspace c.
Proof.
  unfold Unicode.is_space.
  destruct (c <? 128)%N eqn:Hc; [|done].
  apply N.ltb_lt in Hc.
  remember (ascii_of_N c) as a eqn:Ha.
  assert (c = N_of_ascii a) as Hca
    by (subst a; symmetry; apply N_ascii_embedding; lia).
  clear Ha Hc. subst c.
  destruct a as [[] [] [] [] [] [] [] []]; reflexivity.
Qed.

(** *** Stripping *)

Lemma strip_special_app (isalnum isspace : N -> bool) (a b : Unicode.text) :
  Unicode.strip_special isalnum isspace (a ++ b)
  = Unicode.strip_special isalnum isspace a
    ++ Unicode.strip_special isalnum isspace b.
Proof. unfold Unicode.strip_special. apply List.filter_app. Qed.

Lemma strip_special_one (isalnum isspace : N -> bool) (c : N) :
  Unicode.strip_special isalnum isspace [c]
  = if Unicode.is_word isalnum c || Unicode.is_space isspace c || (c =? 45)%N
    then [c] else [].
Proof. reflexivity. Qed.

Lemma strip_special_kept (isalnum isspace : N -> bool) (s : Unicode.text) :
  Forall (fun c => Unicode.keep_char isalnum isspace c = true) s ->
  Unicode.strip_special isalnum isspace s = s.
Proof.
  unfold Unicode.strip_special.
  induction 1 as [|c s Hc _ IH]; [done|]. simpl. by rewrite Hc, IH.
Qed.

Lemma strip_special_junk (isalnum isspace : N -> bool) (s : Unicode.text) :
  Forall (fun c => Unicode.is_word isalnum c = false
                   /\ Unicode.is_space isspace c = false /\ c ≠ 45%N) s ->
  Unicode.strip_special isalnum isspace s = [].
Proof.
  unfold Unicode.strip_special.
  induction 1 as [|c s (Hw & Hs & Hh) _ IH]; [done|]. simpl.
  unfold Unicode.keep_char at 1, Unicode.hyphen.
  apply N.eqb_neq in Hh. by rewrite Hw, Hs, Hh.
Qed.

Lemma strip_special_all (isalnum isspace : N -> bool) (s : Unicode.text) :
  Forall (fun c => Unicode.keep_char isalnum isspace c = true)
    (Unicode.strip_special isalnum isspace s).
Proof.
  unfold Unicode.strip_special. apply Forall_forall.
  intros c Hc%list_elem_of_In. by apply List.filter_In in Hc as [_ Hc].
Qed.

(** *** Collapsing *)

Lemma collapse_word (isspace : N -> bool) (b : bool) (w x : Unicode.text) :
  Forall (fun c => Unicode.sep_char isspace c = false) w ->
  Unicode.collapse_runs isspace b (w ++ x)
  = w ++ Unicode.collapse_runs isspace
           (match w with [] => b | _ => false end) x.
Proof.
  intros Hw. revert b. induction Hw as [|c w Hc _ IH]; intros b; [done|].
  simpl. rewrite Hc, IH. by destruct w.
Qed.

Lemma collapse_in_run (isspace : N -> bool) (r x : Unicode.text) :
  Forall (fun c => Unicode.sep_char isspace c = true) r ->
  Unicode.collapse_runs isspace true (r ++ x)
  = Unicode.collapse_runs isspace true x.
Proof. induction 1 as [|c r Hc _ IH]; [done|]. simpl. by rewrite Hc. Qed.

Lemma collapse_run (isspace : N -> bool) (r x : Unicode.text) :
  r ≠ [] -> Forall (fun c => Unicode.sep_char isspace c = true) r ->
  Unicode.collapse_runs isspace false (r ++ x)
  = 95%N :: Unicode.collapse_runs isspace true x.
Proof.
  intros Hne Hr. destruct Hr as [|c r Hc Hr]; [done|].
  simpl. rewrite Hc. f_equal. by apply collapse_in_run.
Qed.

Lemma collapse_head (isspace : N -> bool) (x : Unicode.text) :
  (forall c, head x = Some c -> Unicode.sep_char isspace c = false) ->
  Unicode.collapse_runs isspace true x = Unicode.collapse_runs isspace false x.
Proof.
  destruct x as [|c x]; [done|]. intros H. simpl. by rewrite (H c).
Qed.

Lemma collapse_app (isspace : N -> bool) (b : bool) (a x : Unicode.text) :
  a ≠ [] ->
  (forall c, last a = Some c -> Unicode.sep_char isspace c = false) ->
  Unicode.collapse_runs isspace b (a ++ x)
  = Unicode.collapse_runs isspace b a ++ Unicode.collapse_runs isspace false x.
Proof.
  revert b. induction a as [|c a IH]; intros b Hne Hlast; [done|].
  destruct a as [|c' a].
  - simpl. by rewrite (Hlast c).
  - pose proof (IH true ltac:(done) Hlast) as Ht.
    pose proof (IH false ltac:(done) Hlast) as Hf.
    change (Unicode.collapse_runs isspace b ((c :: c' :: a) ++ x)) with
      (if Unicode.sep_char isspace c then
         if b then Unicode.collapse_runs isspace true ((c' :: a) ++ x)
         else Unicode.underscore
              :: Unicode.collapse_runs isspace true ((c' :: a) ++ x)
       else c :: Unicode.collapse_runs isspace false ((c' :: a) ++ x)).
    change (Unicode.collapse_runs isspace b (c :: c' :: a)) with
      (if Unicode.sep_char isspace c then
         if b then Unicode.collapse_runs isspace true (c' :: a)
         else Unicode.underscore :: Unicode.collapse_runs isspace true (c' :: a)
       else c :: Unicode.collapse_runs isspace false (c' :: a)).
    rewrite Ht, Hf. by destruct (Unicode.sep_char isspace c), b.
Qed.

Lemma collapse_plain (isspace : N -> bool) (w : Unicode.text) :
  Forall (fun c => c ≠ 45%N /\ Unicode.is_space isspace c = false) w ->
  Unicode.collapse_runs isspace false w = w.
Proof.
  intros Hw.
  assert (Forall (fun c => Unicode.sep_char isspace c = false) w) as Hsep.
  { eapply Forall_impl; [exact Hw|]. intros c Hc. by apply unicode_sep_false. }
  pose proof (collapse_word isspace false w [] Hsep) as H.
  rewrite app_nil_r in H. rewrite H. simpl. apply app_nil_r.
Qed.

Lemma collapse_between (isspace : N -> bool) (a run b : Unicode.text) :
  run ≠ [] ->
  Forall (fun c => c = 45%N \/ Unicode.is_space isspace c = true) run ->
  (forall c, last a = Some c ->
             c ≠ 45%N /\ Unicode.is_space isspace c = false) ->
  (forall c, head b = Some c ->
             c ≠ 45%N /\ Unicode.is_space isspace c = false) ->
  Unicode.collapse_runs isspace false (a ++ run ++ b)
  = Unicode.collapse_runs isspace false a
    ++ 95%N :: Unicode.collapse_runs isspace false b.
Proof.
  intros Hne Hrun Ha Hb.
  assert (Unicode.collapse_runs isspace false (run ++ b)
          = 95%N :: Unicode.collapse_runs isspace false b) as Hr.
  { rewrite collapse_run; [|done|].
    - rewrite collapse_head; [done|].
      intros c Hc. by apply unicode_sep_false, Hb.
    - eapply Forall_impl; [exact Hrun|].
      intros c Hc. by apply unicode_sep_true. }
  destruct a as [|c a]; [exact Hr|].
  rewrite collapse_app; [by rewrite Hr | done |].
  intros d Hd. by apply unicode_sep_false, Ha.
Qed.

Lemma collapse_all_word (isalnum isspace : N -> bool) (b : bool)
    (s : Unicode.text) :
  Forall (fun c => Unicode.keep_char isalnum isspace c = true) s ->
  Forall (fun c => Unicode.is_word isalnum c = true)
    (Unicode.collapse_runs isspace b s).
Proof.
  intros Hs. revert b. induction Hs as [|c s Hc _ IH]; intros b; [constructor|].
  simpl. destruct (Unicode.sep_char isspace c) eqn:Hsep.
  - destruct b; [apply IH|]. constructor; [reflexivity | apply IH].
  - constructor; [by apply (unicode_kept_not_sep isalnum isspace) | apply IH].
Qed.

(** *** Trimming *)

Lemma lstrip_underscores_run (us m : Unicode.text) :
  Forall (fun c => c = 95%N) us ->
  Unicode.lstrip_underscores (us ++ m) = Unicode.lstrip_underscores m.
Proof. induction 1 as [|c us -> _ IH]; [done|]. exact IH. Qed.

Lemma lstrip_underscores_id (m : Unicode.text) :
  head m ≠ Some 95%N -> Unicode.lstrip_underscores m = m.
Proof.
  destruct m as [|c m]; [done|]. simpl. intros H.
  destruct (N.eqb_spec c Unicode.underscore) as [->|_]; [done|done].
Qed.

Lemma rstrip_underscores_all (us : Unicode.text) :
  Forall (fun c => c = 95%N) us -> Unicode.rstrip_underscores us = [].
Proof. induction 1 as [|c us -> _ IH]; [done|]. simpl. by rewrite IH. Qed.

Lemma rstrip_underscores_run (m us : Unicode.text) :
  Forall (fun c => c = 95%N) us ->
  Unicode.rstrip_underscores (m ++ us) = Unicode.rstrip_underscores m.
Proof.
  intros Hus. induction m as [|c m IH].
  - simpl. by apply rstrip_underscores_all.
  - simpl. by rewrite IH.
Qed.

Lemma rstrip_underscores_id (m : Unicode.text) :
  last m ≠ Some 95%N -> Unicode.rstrip_underscores m = m.
Proof.
  induction m as [|c m IH]; [done|].
  destruct m as [|c' m].
  - simpl. intros H.
    destruct (N.eqb_spec c Unicode.underscore) as [->|_]; [done|done].
  - intros H.
    change (Unicode.rstrip_underscores (c :: c' :: m)) with
      (match Unicode.rstrip_underscores (c' :: m) with
       | [] => if (c =? Unicode.underscore)%N then [] else [c]
       | r => c :: r
       end).
    rewrite IH; [done | exact H].
Qed.

Lemma strip_underscores_between (us m us' : Unicode.text) :
  Forall (fun c => c = 95%N) us -> Forall (fun c => c = 95%N) us' ->
  head m ≠ Some 95%N -> last m ≠ Some 95%N ->
  Unicode.strip_underscores (us ++ m ++ us') = m.
Proof.
  intros Hus Hus' Hh Hl. unfold Unicode.strip_underscores.
  rewrite lstrip_underscores_run by done.
  destruct m as [|c m].
  - simpl. rewrite <- (app_nil_r us'), lstrip_underscores_run by done.
    done.
  - rewrite lstrip_underscores_id by done.
    rewrite rstrip_underscores_run by done. by apply rstrip_underscores_id.
Qed.

Lemma lstrip_underscores_head (s : Unicode.text) :
  head (Unicode.lstrip_underscores s) ≠ Some 95%N.
Proof.
  induction s as [|c s IH]; [done|]. simpl.
  destruct (N.eqb_spec c Unicode.underscore) as [->|Hne]; [done|].
  simpl. unfold Unicode.underscore in Hne. congruence.
Qed.

Lemma rstrip_underscores_head (s : Unicode.text) (c : N) :
  head (Unicode.rstrip_underscores s) = Some c -> head s = Some c.
Proof.
  destruct s as [|a s]; [done|]. simpl.
  destruct (Unicode.rstrip_underscores s);
    [destruct (a =? Unicode.underscore)%N|]; simpl; congruence.
Qed.

Lemma rstrip_underscores_last (s : Unicode.text) :
  last (Unicode.rstrip_underscores s) ≠ Some 95%N.
Proof.
  induction s as [|a s IH]; [done|]. simpl.
  destruct (Unicode.rstrip_underscores s) as [|d r] eqn:Hr.
  - destruct (N.eqb_spec a Unicode.underscore) as [->|Hne]; [done|].
    simpl. unfold Unicode.underscore in Hne. congruence.
  - exact IH.
Qed.

Lemma lstrip_underscores_sub (P : N -> Prop) (s : Unicode.text) :
  Forall P s -> Forall P (Unicode.lstrip_underscores s).
Proof.
  induction 1 as [|c s Hc Hs IH]; [constructor|]. simpl.
  destruct (c =? Unicode.underscore)%N; [done | by constructor].
Qed.

Lemma rstrip_underscores_sub (P : N -> Prop) (s : Unicode.text) :
  Forall P s -> Forall P (Unicode.rstrip_underscores s).
Proof.
  induction 1 as [|c s Hc Hs IH]; [constructor|]. simpl.
  destruct (Unicode.rstrip_underscores s) as [|d r].
  - destruct (c =? Unicode.underscore)%N; repeat constructor; done.
  - by constructor.
Qed.

(** *** Words and runs *)

(** The words [w :: map snd ws], each word of [ws] after its run. *)
Lemma collapse_words (isspace : N -> bool) (b : bool) (w : Unicode.text)
    (ws : list (Unicode.text * Unicode.text)) (rn : Unicode.text) :
  w ≠ [] -> Forall (fun c => Unicode.sep_char isspace c = false) w ->
  Forall (fun p =>
            p.1 ≠ []
            /\ Forall (fun c => Unicode.sep_char isspace c = true) p.1
            /\ p.2 ≠ []
            /\ Forall (fun c => Unicode.sep_char isspace c = false) p.2) ws ->
  Forall (fun c => Unicode.sep_char isspace c = true) rn ->
  Unicode.collapse_runs isspace b
    (w ++ concat (map (fun p => p.1 ++ p.2) ws) ++ rn)
  = w ++ concat (map (fun p => 95%N :: p.2) ws)
      ++ match rn with [] => [] | _ => [95%N] end.
Proof.
  intros Hne Hw Hws Hrn. revert b w Hne Hw.
  induction Hws as [|[r w'] ws (Hr1 & Hr2 & Hw1 & Hw2) _ IH]; intros b w Hne Hw.
  - simpl. rewrite collapse_word by done.
    destruct w as [|c w]; [done|]. f_equal.
    destruct rn as [|c' rn]; [done|].
    rewrite <- (app_nil_r (c' :: rn)). by rewrite collapse_run.
  - simpl in *. rewrite collapse_word by done.
    destruct w as [|c w]; [done|]. f_equal.
    rewrite <- !app_assoc. rewrite collapse_run by done.
    rewrite (IH true w' Hw1 Hw2). done.
Qed.

(** Words are texts of word characters that are not whitespace; runs
    are texts of hyphens and whitespace. *)
Lemma word_text_not_sep (isalnum isspace : N -> bool) (x : Unicode.text) :
  Forall (fun c => Unicode.is_word isalnum c = true
                   /\ Unicode.is_space isspace c = false) x ->
  Forall (fun c => Unicode.sep_char isspace c = false) x.
Proof.
  intros Hx. eapply Forall_impl; [exact Hx|]. intros c [Hcw Hcs].
  apply unicode_sep_false. split; [|done]. intros ->.
  by rewrite unicode_is_word_spec in Hcw.
Qed.

Lemma word_text_kept (isalnum isspace : N -> bool) (x : Unicode.text) :
  Forall (fun c => Unicode.is_word isalnum c = true
                   /\ Unicode.is_space isspace c = false) x ->
  Forall (fun c => Unicode.keep_char isalnum isspace c = true) x.
Proof.
  intros Hx. eapply Forall_impl; [exact Hx|]. intros c [Hcw _].
  unfold Unicode.keep_char. by rewrite Hcw.
Qed.

Lemma run_text_sep (isspace : N -> bool) (x : Unicode.text) :
  Forall (fun c => c = 45%N \/ Unicode.is_space isspace c = true) x ->
  Forall (fun c => Unicode.sep_char isspace c = true) x.
Proof.
  intros Hx. eapply Forall_impl; [exact Hx|]. intros c Hc.
  by apply unicode_sep_true.
Qed.

Lemma run_text_kept (isalnum isspace : N -> bool) (x : Unicode.text) :
  Forall (fun c => Unicode.sep_char isspace c = true) x ->
  Forall (fun c => Unicode.keep_char isalnum isspace c = true) x.
Proof.
  intros Hx. eapply Forall_impl; [exact Hx|]. intros c.
  unfold Unicode.sep_char, Unicode.keep_char.
  destruct (Unicode.is_word isalnum c), (Unicode.is_space isspace c),
    (c =? Unicode.hyphen)%N; simpl; congruence.
Qed.

(** C6.  [clean_filename] strips the characters outside the word
    characters, whitespace and the hyphen, collapses every run of
    hyphens and whitespace into one underscore and trims the
    underscores at both ends, for every text and whatever the Unicode
    tables hold from code point 128 on.  The example title gives the
    file name stated.  The function is the composition of three steps.
    Stripping works character by character and keeps a character
    exactly when it is a word character, whitespace or the hyphen.
    Collapsing leaves a text without hyphen and whitespace as it is,
    underscores included, and puts exactly one underscore for a run
    between two texts that do not touch it with a hyphen or whitespace.
    Trimming removes the underscores before and after a text that
    neither starts nor ends with one.  Below 128 the word characters
    are the letters, the digits and the underscore, and whitespace is
    9 to 13, 28 to 31 and the blank.  Every result consists of word
    characters and neither starts nor ends with an underscore.  Words
    separated by runs, with runs before and after, come out joined by
    single underscores; and characters outside the kept classes leave
    no trace. *)
Theorem clean_filename_sanitizes (isalnum isspace : N -> bool) :
  Unicode.clean_filename isalnum isspace
    (Unicode.of_string "Blue Flax (Linum lewisii)")
  = Unicode.of_string "Blue_Flax_Linum_lewisii"
  /\ (forall name,
        Unicode.clean_filename isalnum isspace name
        = Unicode.strip_underscores
            (Unicode.collapse_runs isspace false
               (Unicode.strip_special isalnum isspace name)))
  /\ (forall a b,
        Unicode.strip_special isalnum isspace (a ++ b)
        = Unicode.strip_special isalnum isspace a
          ++ Unicode.strip_special isalnum isspace b)
  /\ (forall c,
        Unicode.strip_special isalnum isspace [c]
        = if Unicode.is_word isalnum c || Unicode.is_space isspace c
             || (c =? 45)%N
          then [c] else [])
  /\ (forall w,
        Forall (fun c => c ≠ 45%N /\ Unicode.is_space isspace c = false) w ->
        Unicode.collapse_runs isspace false w = w)
  /\ (forall a run b,
        run ≠ [] ->
        Forall (fun c => c = 45%N \/ Unicode.is_space isspace c = true) run ->
        (forall c, last a = Some c ->
                   c ≠ 45%N /\ Unicode.is_space isspace c = false) ->
        (forall c, head b = Some c ->
                   c ≠ 45%N /\ Unicode.is_space isspace c = false) ->
        Unicode.collapse_runs isspace false (a ++ run ++ b)
        = Unicode.collapse_runs isspace false a
          ++ 95%N :: Unicode.collapse_runs isspace false b)
  /\ (forall us m us',
        Forall (fun c => c = 95%N) us -> Forall (fun c => c = 95%N) us' ->
        head m ≠ Some 95%N -> last m ≠ Some 95%N ->
        Unicode.strip_underscores (us ++ m ++ us') = m)
  /\ (forall c,
        Unicode.is_word isalnum c
        = if (c <? 128)%N
          then ((65 <=? c) && (c <=? 90) || (97 <=? c) && (c <=? 122)
                || (48 <=? c) && (c <=? 57) || (c =? 95))%N
          else isalnum c)
  /\ (forall c,
        Unicode.is_space isspace c
        = if (c <? 128)%N
          then ((9 <=? c) && (c <=? 13) || (28 <=? c) && (c <=? 32))%N
          else isspace c)
  /\ (forall name,
        Forall (fun c => Unicode.is_word isalnum c = true)
          (Unicode.clean_filename isalnum isspace name)
        /\ head (Unicode.clean_filename isalnum isspace name) ≠ Some 95%N
        /\ last (Unicode.clean_filename isalnum isspace name) ≠ Some 95%N)
  /\ (forall r0 w ws rn,
        Forall (fun c => c = 45%N \/ Unicode.is_space isspace c = true)
          (r0 ++ rn) ->
        Forall (fun x =>
                  x ≠ []
                  /\ Forall (fun c => Unicode.is_word isalnum c = true
                                      /\ Unicode.is_space isspace c = false) x)
          (w :: ws.*2) ->
        Forall (fun r =>
                  r ≠ []
                  /\ Forall (fun c => c = 45%N
                                      \/ Unicode.is_space isspace c = true) r)
          ws.*1 ->
        head w ≠ Some 95%N ->
        last (w ++ concat (map (fun p => 95%N :: p.2) ws)) ≠ Some 95%N ->
        Unicode.clean_filename isalnum isspace
          (r0 ++ w ++ concat (map (fun p => p.1 ++ p.2) ws) ++ rn)
        = w ++ concat (map (fun p => 95%N :: p.2) ws))
  /\ (forall a junk b,
        Forall (fun c => Unicode.is_word isalnum c = false
                         /\ Unicode.is_space isspace c = false
                         /\ c ≠ 45%N) junk ->
        Unicode.clean_filename isalnum isspace (a ++ junk ++ b)
        = Unicode.clean_filename isalnum isspace (a ++ b)).
Proof.
  split; [reflexivity|].
  split; [reflexivity|].
  split; [apply strip_special_app|].
  split; [apply strip_special_one|].
  split; [apply collapse_plain|].
  split; [apply collapse_between|].
  split; [apply strip_underscores_between|].
  split; [apply unicode_is_word_spec|].
  split; [apply unicode_is_space_spec|].
  split; [|split].
  - intros name. unfold Unicode.clean_filename, Unicode.strip_underscores.
    split; [|split].
    + apply rstrip_underscores_sub, lstrip_underscores_sub, collapse_all_word,
        strip_special_all.
    + intros H%rstrip_underscores_head. by apply lstrip_underscores_head in H.
    + apply rstrip_underscores_last.
  - intros r0 w ws rn Hruns Hwords Hseps Hhead Hlast.
    apply Forall_app in Hruns as [Hr0 Hrn].
    apply Forall_cons in Hwords as [[Hne Hw] Hwords].
    pose proof (word_text_not_sep isalnum isspace) as Hword_sep.
    pose proof (run_text_sep isspace) as Hrun_sep.
    assert (Forall (fun p =>
                      p.1 ≠ []
                      /\ Forall (fun c => Unicode.sep_char isspace c = true) p.1
                      /\ p.2 ≠ []
                      /\ Forall (fun c => Unicode.sep_char isspace c = false)
                           p.2)
              ws) as Hws.
    { clear -Hwords Hseps Hword_sep Hrun_sep.
      induction ws as [|[r x] ws IH]; [constructor|].
      simpl in *. apply Forall_cons in Hwords as [[? ?] ?].
      apply Forall_cons in Hseps as [[? ?] ?].
      constructor; [simpl; auto | auto]. }
    assert (Forall (fun c => Unicode.keep_char isalnum isspace c = true)
              (r0 ++ w ++ concat (map (fun p => p.1 ++ p.2) ws) ++ rn))
      as Hkeep.
    { pose proof (run_text_kept isalnum isspace) as Hk1.
      pose proof (word_text_kept isalnum isspace) as Hk2.
      apply Forall_app. split; [auto|].
      apply Forall_app. split; [auto|].
      apply Forall_app. split; [|auto].
      clear -Hwords Hseps Hk1 Hk2 Hrun_sep.
      induction ws as [|[r x] ws IH]; [constructor|].
      simpl in *. apply Forall_cons in Hwords as [[? ?] ?].
      apply Forall_cons in Hseps as [[? ?] ?].
      apply Forall_app. split; [|auto].
      apply Forall_app. split; auto. }
    unfold Unicode.clean_filename.
    rewrite (strip_special_kept _ _ _ Hkeep).
    assert (Unicode.collapse_runs isspace false
              (r0 ++ w ++ concat (map (fun p => p.1 ++ p.2) ws) ++ rn)
            = match r0 with [] => [] | _ => [95%N] end
              ++ (w ++ concat (map (fun p => 95%N :: p.2) ws))
              ++ match rn with [] => [] | _ => [95%N] end) as ->.
    { destruct r0 as [|c r0].
      - simpl. rewrite (collapse_words isspace false w ws rn); auto.
        by rewrite app_assoc.
      - rewrite collapse_run; [|done|auto].
        rewrite (collapse_words isspace true w ws rn); auto.
        simpl. by rewrite app_assoc. }
    apply strip_underscores_between; try done.
    + destruct r0; repeat constructor.
    + destruct rn; repeat constructor.
    + destruct w; [done|]. exact Hhead.
  - intros a junk b Hjunk. unfold Unicode.clean_filename.
    rewrite !strip_special_app. by rewrite (strip_special_junk _ _ _ Hjunk).
Qed.

Lemma clean_filename_sanitizes_witness :
  (* Café, a blank, a no-break space and a hyphen, Noir *)
  Unicode.clean_filename sample_isalnum sample_isspace
    ([] ++ [67; 97; 102; 233]%N
        ++ concat (map (fun p => p.1 ++ p.2)
                     [([32; 160; 45]%N, [78; 111; 105; 114]%N)])
        ++ [32]%N)
  = [67; 97; 102; 233]%N
    ++ concat (map (fun p => 95%N :: p.2)
                 [([32; 160; 45]%N, [78; 111; 105; 114]%N)])
  /\ Unicode.collapse_runs sample_isspace false
       ([66; 95; 95; 70]%N ++ [45; 45]%N ++ [108; 95]%N)
     = Unicode.collapse_runs sample_isspace false [66; 95; 95; 70]%N
       ++ 95%N :: Unicode.collapse_runs sample_isspace false [108; 95]%N
  /\ Unicode.collapse_runs sample_isspace false [66; 95; 95; 70]%N
     = [66; 95; 95; 70]%N
  /\ Unicode.strip_underscores ([95; 95]%N ++ [66; 95; 70]%N ++ [95]%N)
     = [66; 95; 70]%N
  /\ Unicode.clean_filename sample_isalnum sample_isspace
       ([66; 108]%N ++ [40; 8212; 41]%N ++ [117; 101]%N)
     = Unicode.clean_filename sample_isalnum sample_isspace
         ([66; 108]%N ++ [117; 101]%N).
Proof.
  destruct (clean_filename_sanitizes sample_isalnum sample_isspace)
    as (_ & _ & _ & _ & Hplain & Hrun & Htrim & _ & _ & _ & Hwords & Hjunk).
  split; [|split; [|split; [|split]]].
  - apply Hwords; simpl;
      repeat first [ by apply Forall_nil | apply Forall_cons | discriminate
                   | reflexivity | (right; reflexivity) | (left; reflexivity)
                   | split ].
  - apply Hrun.
    + discriminate.
    + apply Forall_cons. split; [left; reflexivity|].
      apply Forall_cons. split; [left; reflexivity|]. by apply Forall_nil.
    + intros c H. simpl in H. injection H as <-.
      split; [discriminate | reflexivity].
    + intros c H. simpl in H. injection H as <-.
      split; [discriminate | reflexivity].
  - apply Hplain.
    repeat first [ by apply Forall_nil | apply Forall_cons | discriminate
                 | reflexivity | split ].
  - apply Htrim.
    + apply Forall_cons. split; [reflexivity|].
      apply Forall_cons. split; [reflexivity|]. by apply Forall_nil.
    + apply Forall_cons. split; [reflexivity|]. by apply Forall_nil.
    + discriminate.
    + discriminate.
  - apply Hjunk.
    repeat first [ by apply Forall_nil | apply Forall_cons | discriminate
                 | reflexivity | split ].
Defined.













(** ** Records *)

Lemma lookup_field_elem (rec : record) (k v : string) :
  NoDup rec.*1 -> (k, v) ∈ rec -> lookup_field k rec = Some v.
Proof.
  induction rec as [|[k' v'] rec IH]; simpl.
  - intros _ H. by apply elem_of_nil in H.
  - intros Hnd H. apply NoDup_cons in Hnd as [Hk' Hnd].
    apply elem_of_cons in H as [H|H].
    + injection H as -> ->. by rewrite String.eqb_refl.
    + destruct (String.eqb_spec k k') as [->|_]; [|by apply IH].
      exfalso. apply Hk'. apply list_elem_of_fmap. by exists (k', v).
Qed.

Lemma lookup_field_Some (rec : record) (k v : string) :
  lookup_field k rec = Some v -> (k, v) ∈ rec.
Proof.
  induction rec as [|[k' v'] rec IH]; simpl; [done|].
  destruct (String.eqb_spec k k') as [->|_].
  - intros [= ->]. apply elem_of_cons. by left.
  - intros H. apply elem_of_cons. right. by apply IH.
Qed.

Lemma present_nonempty_spec (rec : record) (k : string) :
  present_nonempty k rec = true <->
  exists v, lookup_field k rec = Some v /\ v ≠ "".
Proof.
  unfold present_nonempty. destruct (lookup_field k rec) as [v|].
  - rewrite truthy_nonempty. split; [by exists v | by intros (? & [= ->] & ?)].
  - split; [done | by intros (? & ? & ?)].
Qed.

(** The dict filled by a group loop holds exactly the fields of the
    group that the record has with a value that is not empty. *)
Lemma elem_of_collect (fields : list string) (rec : record) (f v : string) :
  (f, v) ∈ collect fields rec <->
  f ∈ fields /\ lookup_field f rec = Some v /\ v ≠ "".
Proof.
  induction fields as [|g fields IH]; simpl.
  - split; [by intros ?%elem_of_nil | by intros [?%elem_of_nil _]].
  - destruct (lookup_field g rec) as [w|] eqn:Hg.
    + destruct (Py.truthy w) eqn:Hw.
      * rewrite !elem_of_cons, IH. apply truthy_nonempty in Hw. split.
        -- intros [[= -> ->]|(? & ? & ?)]; auto.
        -- intros ([->|?] & Hl & ?); [left; congruence | right; auto].
      * rewrite IH, elem_of_cons. apply truthy_empty in Hw. split.
        -- intros (? & ? & ?); auto.
        -- intros ([->|?] & Hl & ?); [congruence | auto].
    + rewrite IH, elem_of_cons. split.
      * intros (? & ? & ?); auto.
      * intros ([->|?] & Hl & ?); [congruence | auto].
Qed.

Lemma collect_keys_present (fields : list string) (rec : record) (f : string) :
  f ∈ (collect fields rec).*1 ->
  f ∈ fields /\ present_nonempty f rec = true.
Proof.
  intros ([f' v] & -> & H)%list_elem_of_fmap.
  apply elem_of_collect in H as (? & ? & ?). split; [done|].
  apply present_nonempty_spec. eauto.
Qed.

(** The rows of the dict are in the order of the group's list. *)
Lemma collect_keys_sublist (fields : list string) (rec : record) :
  (collect fields rec).*1 `sublist_of` fields.
Proof.
  induction fields as [|g fields IH]; simpl; [constructor|].
  destruct (lookup_field g rec) as [w|]; [destruct (Py.truthy w)|]; simpl;
    by constructor.
Qed.

Lemma collect_nonempty (fields : list string) (rec : record) (f v : string) :
  f ∈ fields -> lookup_field f rec = Some v -> v ≠ "" ->
  collect fields rec ≠ [].
Proof.
  intros Hf Hl Hv Hnil.
  assert ((f, v) ∈ collect fields rec) as H by by apply elem_of_collect.
  rewrite Hnil in H. by apply elem_of_nil in H.
Qed.

(** ** One field *)

Global Arguments collect : simpl never.
Global Arguments Py.in_list : simpl never.
Global Arguments Py.contains : simpl never.

Lemma process_field_outcome (rec : record) (p : gset string) (k v : string) :
  field_outcome rec p k v (process_field rec p k v).1 (process_field rec p k v).2.
Proof.
  field_cases; simpl; bool_hyps;
    repeat match goal with
      | H : Py.in_list _ _ = true |- _ => apply (proj1 (in_list_elem _ _)) in H
      | H : Py.in_list _ _ = false |- _ =>
          apply (proj1 (in_list_not_elem _ _)) in H
      | H : format_field_name _ = None |- _ =>
          unfold format_field_name in H; case_match; [|done]
      end;
    try done;
    solve [econstructor; eauto using single_instr].
Qed.

(** The same, for a given result. *)
Lemma process_field_inv (rec : record) (p p' : gset string) (k v : string)
    (out : list instr) :
  process_field rec p k v = (p', out) -> field_outcome rec p k v p' out.
Proof.
  intros E. pose proof (process_field_outcome rec p k v) as H.
  by rewrite E in H.
Qed.

Lemma elem_of_add_all (keys : list string) (p : gset string) (k : string) :
  k ∈ add_all keys p <-> k ∈ keys \/ k ∈ p.
Proof. unfold add_all. rewrite elem_of_union, elem_of_list_to_set. done. Qed.

Lemma skip_not_table1 (k : string) :
  k ∈ skip_fields -> k ∈ table1_fields -> False.
Proof.
  intros H1%in_list_elem H2. revert H1.
  unfold table1_fields in H2.
  repeat (apply elem_of_cons in H2 as [->|H2]; [by vm_compute|]).
  by apply elem_of_nil in H2.
Qed.

Lemma table2_not_table1 (k : string) :
  k ∈ table2_fields -> k ∈ table1_fields -> False.
Proof.
  intros H1%in_list_elem H2. revert H1.
  unfold table1_fields in H2.
  repeat (apply elem_of_cons in H2 as [->|H2]; [by vm_compute|]).
  by apply elem_of_nil in H2.
Qed.

Lemma content_key_not_table1 (n : string) :
  "Why chose this product " +:+ n ∉ table1_fields.
Proof. apply in_list_not_elem. reflexivity. Qed.

Lemma single_instr_fields (k v : string) (i : instr) :
  single_instr k v i -> fields_of i = [k] /\ forall t rows, i ≠ Table t rows.
Proof. by destruct 1. Qed.

Lemma elem_of_table_instr (t : string) (data : list (string * string)) (i : instr) :
  i ∈ table_instr t data <-> i = Table t data /\ data ≠ [].
Proof.
  destruct data as [|d data]; simpl.
  - split; [by intros ?%elem_of_nil | by intros [_ ?]].
  - rewrite list_elem_of_singleton. split; [by intros -> | by intros [-> _]].
Qed.

(** [processed_fields] only grows. *)
Lemma process_field_mono (rec : record) (p p' : gset string) (k v : string)
    (out : list instr) :
  process_field rec p k v = (p', out) -> p ⊆ p'.
Proof.
  intros H%process_field_inv x Hx.
  destruct H; unfold add_all; rewrite ?elem_of_union; auto.
Qed.

(** A field enters [processed_fields] as the field at hand, with a
    value that is not empty, or as a field that the record has with a
    value that is not empty. *)
Lemma process_field_added (rec : record) (p p' : gset string) (k v k' : string)
    (out : list instr) :
  process_field rec p k v = (p', out) ->
  k' ∈ p' ->
  k' ∈ p \/ (k' = k /\ Py.truthy v = true) \/ present_nonempty k' rec = true.
Proof.
  intros H%process_field_inv Hk'. destruct H;
    repeat match goal with
      | H : _ ∈ add_all _ _ |- _ => apply elem_of_add_all in H as [H|H]
      | H : _ ∈ _ ∪ _ |- _ => apply elem_of_union in H as [H|H]
      | H : _ ∈ {[ _ ]} |- _ => apply elem_of_singleton in H; subst
      | H : _ ∈ (collect _ _).*1 |- _ => apply collect_keys_present in H as [_ H]
      end; auto.
Qed.

(** A Growing-Conditions field enters [processed_fields] only in the
    iteration that builds table 1. *)
Lemma process_field_added_table1 (rec : record) (p p' : gset string)
    (k v k' : string) (out : list instr) :
  process_field rec p k v = (p', out) ->
  k' ∈ p' -> k' ∈ table1_fields ->
  k' ∈ p \/ (k ∈ table1_fields /\ Py.truthy v = true /\ k ∉ p).
Proof.
  intros H%process_field_inv Hk' Ht. destruct H;
    repeat match goal with
      | H : _ ∈ add_all _ _ |- _ => apply elem_of_add_all in H as [H|H]
      | H : _ ∈ _ ∪ _ |- _ => apply elem_of_union in H as [H|H]
      | H : _ ∈ {[ _ ]} |- _ => apply elem_of_singleton in H; subst
      | H : _ ∈ (collect table2_fields _).*1 |- _ =>
          apply collect_keys_present in H as [H _]
      end; auto;
    exfalso; eauto using skip_not_table1, table2_not_table1.
  by eapply content_key_not_table1.
Qed.

(** The fields an iteration prints are the field at hand or fields the
    record has with a value that is not empty. *)
Lemma process_field_fields (rec : record) (p p' : gset string) (k v f : string)
    (out : list instr) (i : instr) :
  process_field rec p k v = (p', out) ->
  i ∈ out -> f ∈ fields_of i ->
  (f = k /\ Py.truthy v = true) \/ present_nonempty f rec = true.
Proof.
  intros H%process_field_inv Hi Hf. destruct H;
    try match goal with H : single_instr _ _ _ |- _ => destruct H end;
    repeat match goal with
      | H : _ ∈ [] |- _ => by apply elem_of_nil in H
      | H : _ ∈ table_instr _ _ |- _ =>
          apply elem_of_table_instr in H as [-> _]; unfold fields_of in *
      | H : _ ∈ (collect _ _).*1 |- _ => apply collect_keys_present in H as [_ H]
      | H : _ ∈ _ :: _ |- _ =>
          apply elem_of_cons in H as [->|H]; unfold fields_of in *
      end; auto.
Qed.

(** The tables an iteration emits. *)
Lemma process_field_table (rec : record) (p p' : gset string) (k v t : string)
    (out : list instr) (rows : list (string * string)) :
  process_field rec p k v = (p', out) ->
  Table t rows ∈ out ->
  Py.truthy v = true /\ (k ∉ p) /\ (rows ≠ []) /\
  ((t = "Growing Conditions" /\ rows = collect table1_fields rec
    /\ k ∈ table1_fields)
   \/ (t = "Plant Characteristics" /\ rows = collect table2_fields rec
       /\ k ∈ table2_fields /\ why_chose_done rec p = true)).
Proof.
  intros H%process_field_inv Hi. destruct H;
    repeat match goal with
      | H : _ ∈ [] |- _ => by apply elem_of_nil in H
      | H : _ ∈ table_instr _ _ |- _ =>
          apply elem_of_table_instr in H as [[= -> ->] ?]
      | H : _ ∈ _ :: _ |- _ => apply elem_of_cons in H as [H|H]
      | H : single_instr _ _ _ |- _ =>
          apply single_instr_fields in H as [_ H]
      end; try done; auto 10.
  by destruct (H2 t rows).
Qed.

(** The iteration that meets a Growing-Conditions field with a value,
    not yet processed, builds table 1. *)
Lemma process_field_table1 (rec : record) (p : gset string) (k v : string) :
  k ∈ table1_fields -> Py.truthy v = true -> k ∉ p ->
  process_field rec p k v =
  (add_all (collect table1_fields rec).*1 p,
   table_instr "Growing Conditions" (collect table1_fields rec)).
Proof.
  intros Hk Hv Hp.
  destruct (process_field rec p k v) as [p' out] eqn:E.
  apply process_field_inv in E. destruct E; try done.
  - destruct H; congruence.
  - exfalso. eauto using skip_not_table1.
  - exfalso. eauto using table2_not_table1.
Qed.

(** ** The loop *)

Lemma process_fields_cons (rec : record) (k v : string)
    (items : list (string * string)) (p : gset string) :
  process_fields rec ((k, v) :: items) p =
  ((process_fields rec items (process_field rec p k v).1).1,
   (process_field rec p k v).2
   ++ (process_fields rec items (process_field rec p k v).1).2).
Proof.
  simpl. destruct (process_field rec p k v) as [p1 out1]. simpl.
  by destruct (process_fields rec items p1).
Qed.

Lemma process_fields_mono (rec : record) (items : list (string * string))
    (p : gset string) :
  p ⊆ (process_fields rec items p).1.
Proof.
  revert p. induction items as [|[k v] items IH]; intros p; [done|].
  rewrite process_fields_cons. simpl.
  destruct (process_field rec p k v) as [p1 out1] eqn:E. simpl.
  apply process_field_mono in E. specialize (IH p1).
  intros x Hx. auto.
Qed.

Lemma tables_titled_app (t : string) (out1 out2 : list instr) :
  tables_titled t (out1 ++ out2) = tables_titled t out1 ++ tables_titled t out2.
Proof. apply List.filter_app. Qed.

Lemma tables_titled_nil (t : string) (out : list instr) :
  (forall rows, Table t rows ∉ out) -> tables_titled t out = [].
Proof.
  induction out as [|i out IH]; [done|]. intros H. simpl.
  assert (is_table_titled t i = false) as ->.
  { destruct i as [|t' rows| | | | |]; simpl; try done.
    destruct (String.eqb_spec t' t) as [->|]; [|done].
    exfalso. apply (H rows). apply elem_of_cons. by left. }
  apply IH. intros rows Hin. apply (H rows). apply elem_of_cons. by right.
Qed.

Section Loop.

Variable rec : record.

Lemma items_of_record_cons k v items :
  items_of_record rec ((k, v) :: items) ->
  lookup_field k rec = Some v /\ items_of_record rec items.
Proof.
  intros H. split.
  - apply H. apply elem_of_cons. by left.
  - intros k' v' Hin. apply H. apply elem_of_cons. by right.
Qed.

Lemma record_items_of_record : NoDup rec.*1 -> items_of_record rec rec.
Proof. intros Hnd k v Hin. by apply lookup_field_elem. Qed.

(** Invariant: what is processed, other than the title, and what is
    printed, is present in the record with a value. *)
Lemma process_fields_present (items : list (string * string)) (p : gset string) :
  items_of_record rec items ->
  (forall k, k ∈ p -> k = "Title" \/ present_nonempty k rec = true) ->
  (forall k, k ∈ (process_fields rec items p).1 ->
             k = "Title" \/ present_nonempty k rec = true)
  /\ (forall i f, i ∈ (process_fields rec items p).2 -> f ∈ fields_of i ->
                  present_nonempty f rec = true).
Proof.
  revert p. induction items as [|[k v] items IH]; intros p Hitems Hp.
  { split; [done|]. intros i f Hi. by apply elem_of_nil in Hi. }
  apply items_of_record_cons in Hitems as [Hk Hitems].
  rewrite process_fields_cons. simpl.
  destruct (process_field rec p k v) as [p1 out1] eqn:E. simpl.
  assert (Py.truthy v = true -> present_nonempty k rec = true) as Hkv.
  { intros Hv. unfold present_nonempty. by rewrite Hk. }
  destruct (IH p1 Hitems) as [IH1 IH2].
  { intros k' Hk'.
    destruct (process_field_added _ _ _ _ _ _ _ E Hk') as [?|[[-> ?]|?]]; auto. }
  split; [done|].
  intros i f [Hi|Hi]%elem_of_app Hf; [|by eapply IH2].
  destruct (process_field_fields _ _ _ _ _ _ _ _ E Hi Hf) as [[-> ?]|?]; auto.
Qed.

(** Every table of the loop is one of the two group tables. *)
Lemma process_fields_tables (items : list (string * string)) (p : gset string)
    (t : string) (rows : list (string * string)) :
  Table t rows ∈ (process_fields rec items p).2 ->
  (t = "Growing Conditions" /\ rows = collect table1_fields rec)
  \/ (t = "Plant Characteristics" /\ rows = collect table2_fields rec).
Proof.
  revert p. induction items as [|[k v] items IH]; intros p.
  { by intros ?%elem_of_nil. }
  rewrite process_fields_cons. simpl.
  destruct (process_field rec p k v) as [p1 out1] eqn:E. simpl.
  intros [Hi|Hi]%elem_of_app; [|by eapply IH].
  apply (process_field_table _ _ _ _ _ _ _ _ E) in Hi
    as (_ & _ & _ & [(-> & -> & _)|(-> & -> & _)]); auto.
Qed.

(** Once the Growing-Conditions fields of the record are processed, no
    further table 1 is built. *)
Lemma process_fields_growing_after (items : list (string * string))
    (p : gset string) :
  items_of_record rec items ->
  (forall k, k ∈ (collect table1_fields rec).*1 -> k ∈ p) ->
  tables_titled "Growing Conditions" (process_fields rec items p).2 = [].
Proof.
  revert p. induction items as [|[k v] items IH]; intros p Hitems Hp; [done|].
  apply items_of_record_cons in Hitems as [Hk Hitems].
  rewrite process_fields_cons. simpl.
  destruct (process_field rec p k v) as [p1 out1] eqn:E. simpl.
  rewrite tables_titled_app, (IH p1 Hitems).
  2:{ intros k' Hk'. apply (process_field_mono _ _ _ _ _ _ E). auto. }
  rewrite app_nil_r. apply tables_titled_nil. intros rows Hin.
  apply (process_field_table _ _ _ _ _ _ _ _ E) in Hin
    as (Hv & Hnp & _ & [(_ & _ & Ht)|(Hne & _)]); [|done].
  apply Hnp, Hp. apply list_elem_of_fmap. exists (k, v). split; [done|].
  apply elem_of_collect. by rewrite <- truthy_nonempty.
Qed.

(** Until a Growing-Conditions field with a value is met, no table 1
    is built; the first one met builds it, with every such field of
    the record, and marks them all. *)
Lemma process_fields_growing_before (items : list (string * string))
    (p : gset string) :
  items_of_record rec items ->
  (forall k, k ∈ (collect table1_fields rec).*1 -> k ∉ p) ->
  if existsb (fun kv => Py.in_list kv.1 table1_fields && Py.truthy kv.2) items
  then
    tables_titled "Growing Conditions" (process_fields rec items p).2
    = [Table "Growing Conditions" (collect table1_fields rec)]
    /\ (forall k, k ∈ (collect table1_fields rec).*1 ->
                  k ∈ (process_fields rec items p).1)
  else
    tables_titled "Growing Conditions" (process_fields rec items p).2 = [].
Proof.
  revert p. induction items as [|[k v] items IH]; intros p Hitems Hp; [done|].
  apply items_of_record_cons in Hitems as [Hk Hitems].
  rewrite process_fields_cons. simpl.
  destruct (Py.in_list k table1_fields && Py.truthy v) eqn:Hhit; simpl.
  - apply andb_true_iff in Hhit as [Hin%in_list_elem Hv].
    assert ((k, v) ∈ collect table1_fields rec) as Hkv.
    { apply elem_of_collect. by rewrite <- truthy_nonempty. }
    assert (k ∉ p) as Hnp.
    { apply Hp. apply list_elem_of_fmap. by exists (k, v). }
    rewrite (process_field_table1 rec p k v Hin Hv Hnp). simpl.
    rewrite tables_titled_app, process_fields_growing_after; [|done|].
    2:{ intros k' Hk'. apply elem_of_add_all. by left. }
    split.
    + destruct (collect table1_fields rec) as [|r rows] eqn:Hc.
      { by apply elem_of_nil in Hkv. }
      done.
    + intros k' Hk'. apply process_fields_mono, elem_of_add_all. by left.
  - destruct (process_field rec p k v) as [p1 out1] eqn:E. simpl.
    assert (tables_titled "Growing Conditions" out1 = []) as Hout1.
    { apply tables_titled_nil. intros rows Hin.
      apply (process_field_table _ _ _ _ _ _ _ _ E) in Hin
        as (Hv & _ & _ & [(_ & _ & Ht)|(Hne & _)]); [|done].
      apply (proj2 (in_list_elem _ _)) in Ht.
      rewrite Ht, Hv in Hhit. by simpl in Hhit. }
    rewrite tables_titled_app, Hout1. simpl.
    apply IH; [done|]. intros k' Hk' Hk1.
    assert (k' ∈ table1_fields) as Ht.
    { by apply collect_keys_present in Hk' as [? _]. }
    destruct (process_field_added_table1 _ _ _ _ _ _ _ E Hk1 Ht)
      as [?|(Ht1 & Hv & _)].
    + by apply (Hp k').
    + apply (proj2 (in_list_elem _ _)) in Ht1.
      rewrite Ht1, Hv in Hhit. by simpl in Hhit.
Qed.

End Loop.

(** ** The whole document *)

Lemma consumed_eq (rec : record) :
  consumed rec = (process_fields rec rec {["Title"]}).1.
Proof.
  unfold consumed, create_product_document.
  by destruct (process_fields rec rec {["Title"]}).
Qed.

Lemma rendered_eq (rec : record) :
  rendered rec =
  Title (get_field "Title" "Unknown Product" rec)
  :: (process_fields rec rec {["Title"]}).2.
Proof.
  unfold rendered, create_product_document.
  by destruct (process_fields rec rec {["Title"]}).
Qed.

Lemma renders_zero (k : string) (out : list instr) :
  (forall i, i ∈ out -> k ∉ fields_of i) -> renders k out = 0.
Proof.
  unfold renders. induction out as [|i out IH]; [done|]. intros H. simpl.
  assert (Py.in_list k (fields_of i) = false) as ->.
  { apply in_list_not_elem, H, elem_of_cons. by left. }
  apply IH. intros j Hj. apply H, elem_of_cons. by right.
Qed.

Lemma lookup_field_perm (rec rec' : record) (k : string) :
  NoDup rec.*1 -> rec ≡ₚ rec' -> lookup_field k rec' = lookup_field k rec.
Proof.
  intros Hnd Hperm.
  assert (NoDup rec'.*1) as Hnd' by by rewrite <- Hperm.
  destruct (lookup_field k rec) as [v|] eqn:E.
  - apply lookup_field_Some in E. rewrite Hperm in E.
    by apply lookup_field_elem.
  - destruct (lookup_field k rec') as [v|] eqn:E'; [|done].
    apply lookup_field_Some in E'. rewrite <- Hperm in E'.
    apply (lookup_field_elem _ _ _ Hnd) in E'. congruence.
Qed.

Lemma collect_perm (fields : list string) (rec rec' : record) :
  NoDup rec.*1 -> rec ≡ₚ rec' -> collect fields rec' = collect fields rec.
Proof.
  intros Hnd Hperm. induction fields as [|f fields IH]; [done|].
  unfold collect; fold collect.
  by rewrite (lookup_field_perm rec rec' f Hnd Hperm), IH.
Qed.

(** C5.  In a record (a dict: no key twice), the table built when a
    Growing-Conditions field is met holds exactly the fields of the
    fixed seven-name list that the record has with a value, whatever
    their position; an iteration that meets such a field, with a value
    and not yet processed, marks all of them and emits that one table;
    and the whole build emits the table exactly once when the record
    has such a field, and never otherwise. *)
Theorem growing_conditions_group_emit (rec : record) :
  NoDup rec.*1 ->
  let table1_data := collect table1_fields rec in
  (forall f v,
      (f, v) ∈ table1_data <-> f ∈ table1_fields /\ (f, v) ∈ rec /\ v ≠ "")
  /\ (forall p k v,
        (k, v) ∈ rec -> k ∈ table1_fields -> v ≠ "" -> k ∉ p ->
        process_field rec p k v =
        (add_all table1_data.*1 p, [Table "Growing Conditions" table1_data]))
  /\ (table1_data ≠ [] ->
      tables_titled "Growing Conditions" (rendered rec)
      = [Table "Growing Conditions" table1_data]
      /\ forall f, f ∈ table1_data.*1 -> f ∈ consumed rec)
  /\ (table1_data = [] ->
      tables_titled "Growing Conditions" (rendered rec) = []).
Proof.
  intros Hnd table1_data. subst table1_data.
  assert (forall f v, (f, v) ∈ collect table1_fields rec <->
            f ∈ table1_fields /\ (f, v) ∈ rec /\ v ≠ "") as Hrows.
  { intros f v. rewrite elem_of_collect. split.
    - intros (? & ?%lookup_field_Some & ?). auto.
    - intros (? & ? & ?). auto using lookup_field_elem. }
  pose proof (process_fields_growing_before rec rec {["Title"]}
                (record_items_of_record rec Hnd)) as Hloop.
  assert (forall k, k ∈ (collect table1_fields rec).*1 ->
                    k ∉ ({["Title"]} : gset string)) as Hinit.
  { intros k [Hk _]%collect_keys_present ->%elem_of_singleton.
    revert Hk. apply in_list_not_elem. reflexivity. }
  specialize (Hloop Hinit).
  assert (existsb (fun kv => Py.in_list kv.1 table1_fields && Py.truthy kv.2) rec
          = true <-> collect table1_fields rec ≠ []) as Hhit.
  { rewrite existsb_exists. split.
    - intros ([k v] & Hin%list_elem_of_In & [Hk%in_list_elem Hv]%andb_true_iff).
      simpl in *. apply (collect_nonempty _ _ k v); [done| |].
      + by apply lookup_field_elem.
      + by apply truthy_nonempty.
    - intros Hne. destruct (collect table1_fields rec) as [|[f v] rows] eqn:E;
        [done|].
      destruct (proj1 (Hrows f v)) as (Hf & Hin & Hv);
        [apply elem_of_cons; by left|].
      exists (f, v). split; [by apply list_elem_of_In|]. simpl.
      apply andb_true_iff. split; [by apply in_list_elem|].
      by apply truthy_nonempty. }
  split; [exact Hrows|]. split; [|split].
  - intros p k v Hin Hk Hv Hp.
    rewrite (process_field_table1 rec p k v Hk); [|by apply truthy_nonempty|done].
    assert ((k, v) ∈ collect table1_fields rec) as Hkv by (apply Hrows; auto).
    destruct (collect table1_fields rec); [by apply elem_of_nil in Hkv | done].
  - intros Hne. apply Hhit in Hne. rewrite Hne in Hloop.
    destruct Hloop as [Htab Hmark]. rewrite rendered_eq, consumed_eq.
    split; [exact Htab | exact Hmark].
  - intros Hnil.
    destruct (existsb (fun kv => Py.in_list kv.1 table1_fields && Py.truthy kv.2)
                rec).
    + by destruct (proj1 Hhit eq_refl).
    + rewrite rendered_eq. exact Hloop.
Qed.

Lemma growing_conditions_group_emit_witness :
  NoDup three_conditions.*1
  /\ tables_titled "Growing Conditions" (rendered three_conditions)
     = [Table "Growing Conditions"
          [("Soil Preference", "Well-drained"); ("Soil pH", "6.0-7.5");
           ("Planting Depth", "1/8 inch")]].
Proof.
  assert (NoDup three_conditions.*1) as Hnd.
  { apply (bool_decide_unpack _). vm_compute. exact I. }
  split; [exact Hnd|].
  destruct (growing_conditions_group_emit three_conditions Hnd)
    as (_ & _ & Hbuild & _).
  apply Hbuild. vm_compute. discriminate.
Defined.

(** C10.  Every table of a document is one of the two group tables,
    and its rows are the group's fields in the order of the fixed list
    ([table1_fields], [table2_fields]); the rows do not change when the
    fields of the record are put in another order. *)
Theorem table_rows_follow_declaration_order (rec : record) (t : string)
    (rows : list (string * string)) :
  Table t rows ∈ rendered rec ->
  ((t = "Growing Conditions" /\ rows = collect table1_fields rec
    /\ rows.*1 `sublist_of` table1_fields)
   \/ (t = "Plant Characteristics" /\ rows = collect table2_fields rec
       /\ rows.*1 `sublist_of` table2_fields))
  /\ (forall rec', NoDup rec.*1 -> rec ≡ₚ rec' ->
        collect table1_fields rec' = collect table1_fields rec
        /\ collect table2_fields rec' = collect table2_fields rec).
Proof.
  rewrite rendered_eq. intros [Hin|Hin]%elem_of_cons; [done|]. split.
  - apply process_fields_tables in Hin as [[-> ->]|[-> ->]]; [left|right];
      auto using collect_keys_sublist.
  - intros rec' Hnd Hperm. split; by apply collect_perm.
Qed.

Lemma table_rows_follow_declaration_order_witness :
  (collect table1_fields three_conditions).*1
  = ["Soil Preference"; "Soil pH"; "Planting Depth"]
  /\ (collect table1_fields three_conditions).*1 `sublist_of` table1_fields.
Proof.
  split; [reflexivity|].
  assert (Table "Growing Conditions" (collect table1_fields three_conditions)
          ∈ rendered three_conditions) as Hin.
  { vm_compute. repeat first [apply list_elem_of_here | apply list_elem_of_further]. }
  destruct (table_rows_follow_declaration_order _ _ _ Hin)
    as [[(_ & _ & Hsub)|(Heq & _)] _]; [exact Hsub | discriminate Heq].
Defined.

(** ** Fields with an empty value *)

(** C4, as the code has it.  A field other than the title that the
    record has with the empty value produces no instruction: its own
    iteration leaves the document and [processed_fields] as they are,
    no instruction of the build prints it, and its name is not in
    [processed_fields] when the build ends. *)
Theorem empty_field_omitted (rec : record) (k : string) :
  NoDup rec.*1 -> (k, "") ∈ rec -> k ≠ "Title" ->
  (forall p, process_field rec p k "" = (p, []))
  /\ renders k (rendered rec) = 0
  /\ k ∉ consumed rec.
Proof.
  intros Hnd Hin Hk.
  assert (present_nonempty k rec = false) as Habsent.
  { unfold present_nonempty. by rewrite (lookup_field_elem rec k "" Hnd Hin). }
  destruct (process_fields_present rec rec {["Title"]}) as [Hp Hout].
  { by apply record_items_of_record. }
  { intros k' ->%elem_of_singleton. by left. }
  split; [done|]. split.
  - apply renders_zero. rewrite rendered_eq.
    intros i [->|Hi]%elem_of_cons Hf.
    + apply list_elem_of_singleton in Hf. done.
    + rewrite (Hout i k Hi Hf) in Habsent. done.
  - rewrite consumed_eq. intros [?|Hpres]%Hp; [done|].
    rewrite Hpres in Habsent. done.
Qed.

Lemma empty_field_omitted_witness :
  renders "Color" (rendered empty_color) = 0
  /\ "Color" ∉ consumed empty_color.
Proof.
  assert (NoDup empty_color.*1) as Hnd.
  { apply (bool_decide_unpack _). vm_compute. exact I. }
  assert (("Color", "") ∈ empty_color) as Hin.
  { vm_compute. repeat first [apply list_elem_of_here | apply list_elem_of_further]. }
  assert ("Color" ≠ "Title") as Hne by discriminate.
  destruct (empty_field_omitted empty_color "Color" Hnd Hin Hne) as (_ & H1 & H2).
  split; [exact H1 | exact H2].
Defined.

(** C4 as stated fails: the field with the empty value is not added to
    [processed_fields]. *)
Lemma empty_field_not_marked :
  ("Color", "") ∈ empty_color
  /\ renders "Color" (rendered empty_color) = 0
  /\ ~ "Color" ∈ consumed empty_color.
Proof.
  split; [|split].
  - vm_compute. repeat first [apply list_elem_of_here | apply list_elem_of_further].
  - reflexivity.
  - apply (bool_decide_unpack _). vm_compute. exact I.
Qed.

(** An empty title is still printed, as an empty heading: the reason
    for the exception made for the title above. *)
Lemma empty_title_rendered :
  rendered [("Title", "")] = [Title ""].
Proof. reflexivity. Qed.

(** ** The gate of table 2 *)

(** C1.  The build of [early_characteristic] prints the value of
    ["Sun/Shade"] twice: as a labelled paragraph when the field is met
    with the gate closed, and again as a row of the Plant
    Characteristics table that the later field ["Uses"] builds. *)
Theorem early_characteristic_rendered_twice :
  NoDup early_characteristic.*1
  /\ rendered early_characteristic =
     [Title "Prairie Mix";
      LabeledParagraph "Sun/Shade" "Sun / Shade" "Full Sun" 11;
      Heading "Why chose this product Title 1" 3 "Hardy" 14;
      Paragraph "Why chose this product 1" "It survives drought.";
      Table "Plant Characteristics"
        [("Sun/Shade", "Full Sun"); ("Uses", "Borders")]]
  /\ renders "Sun/Shade" (rendered early_characteristic) = 2.
Proof.
  split; [|split].
  - apply (bool_decide_unpack _). vm_compute. exact I.
  - vm_compute. reflexivity.
  - vm_compute. reflexivity.
Qed.

(** C2.  In [early_characteristic] the field ["Sun/Shade"] is met
    while ["Why chose this product Title 1"] is in the record and not
    processed: the gate is closed, and the iteration does not defer the
    field but prints it as a labelled paragraph and marks it
    processed. *)
Theorem gated_characteristic_falls_through :
  why_chose_done early_characteristic {["Title"]} = false
  /\ (process_field early_characteristic {["Title"]} "Sun/Shade" "Full Sun").2
     = [LabeledParagraph "Sun/Shade" "Sun / Shade" "Full Sun" 11]
  /\ "Sun/Shade" ∈ (process_field early_characteristic {["Title"]}
                      "Sun/Shade" "Full Sun").1.
Proof.
  split; [|split].
  - vm_compute. reflexivity.
  - vm_compute. reflexivity.
  - apply (bool_decide_unpack _). vm_compute. exact I.
Qed.

(** The same for every Plant-Characteristics field and every record:
    with the gate closed the field takes the fallback branch. *)
Lemma gate_closed_falls_through (rec : record) (p : gset string) (k v : string) :
  k ∈ table2_fields -> Py.truthy v = true -> k ∉ p ->
  why_chose_done rec p = false ->
  process_field rec p k v =
  ({[k]} ∪ p, [LabeledParagraph k (default k (format_field_name k)) v 11]).
Proof.
  intros Hk Hv Hp Hgate. unfold process_field.
  rewrite Hv, (bool_decide_eq_false_2 _ Hp), Hgate.
  unfold table2_fields in Hk.
  repeat (apply elem_of_cons in Hk as [->|Hk]; [reflexivity|]).
  by apply elem_of_nil in Hk.
Qed.

(** The gate looks at the titles that are in the record only: without
    any of the five titles it is open, and a Plant-Characteristics field
    builds table 2. *)
Lemma gate_open_without_titles (rec : record) (p : gset string) :
  (forall i, i ∈ ["1"; "2"; "3"; "4"; "5"] ->
             lookup_field (why_chose_title_key i) rec = None) ->
  why_chose_done rec p = true.
Proof.
  intros H. unfold why_chose_done. apply forallb_forall.
  intros i Hi%list_elem_of_In. rewrite (H i Hi).
  rewrite bool_decide_eq_false_2; [done|]. by intros [? ?].
Qed.

Lemma gate_open_builds_table2 (rec : record) (p : gset string) (k v : string) :
  k ∈ table2_fields -> Py.truthy v = true -> k ∉ p ->
  why_chose_done rec p = true ->
  process_field rec p k v =
  (add_all (collect table2_fields rec).*1 p,
   table_instr "Plant Characteristics" (collect table2_fields rec)).
Proof.
  intros Hk Hv Hp Hgate. unfold process_field.
  rewrite Hv, (bool_decide_eq_false_2 _ Hp), Hgate.
  unfold table2_fields in Hk.
  repeat (apply elem_of_cons in Hk as [->|Hk]; [reflexivity|]).
  by apply elem_of_nil in Hk.
Qed.

(** ** Why-chose titles and their content *)

Lemma split_head (c : ascii) (s : string) :
  Py.is_space c = false -> Py.split (String c s) ≠ [].
Proof.
  intros Hc. simpl. rewrite Hc.
  destruct s as [|c' s]; [done|].
  destruct (Py.is_space c'); [done|]. by destruct (Py.split (String c' s)).
Qed.

(** A blank between two strings separates their tokens. *)
Lemma split_app_blank (s t : string) :
  Py.split (s +:+ String " " t) = Py.split s ++ Py.split t.
Proof.
  induction s as [|c s IH]; [done|].
  rewrite append_cons.
  change (Py.split (String c (s +:+ String " " t))) with
    (if Py.is_space c then Py.split (s +:+ String " " t)
     else match s +:+ String " " t with
          | EmptyString => [String c EmptyString]
          | String c' _ =>
              if Py.is_space c' then String c EmptyString :: Py.split (s +:+ String " " t)
              else match Py.split (s +:+ String " " t) with
                   | w :: ws => String c w :: ws
                   | [] => [String c EmptyString]
                   end
          end).
  change (Py.split (String c s)) with
    (if Py.is_space c then Py.split s
     else match s with
          | EmptyString => [String c EmptyString]
          | String c' _ =>
              if Py.is_space c' then String c EmptyString :: Py.split s
              else match Py.split s with
                   | w :: ws => String c w :: ws
                   | [] => [String c EmptyString]
                   end
          end).
  destruct (Py.is_space c); [exact IH|].
  destruct s as [|c' s].
  - rewrite append_empty_l in *. simpl (Py.is_space " "). by rewrite IH.
  - rewrite append_cons in *. destruct (Py.is_space c') eqn:Hc'.
    + by rewrite IH.
    + rewrite IH. pose proof (split_head c' s Hc') as Hne.
      by destruct (Py.split (String c' s)).
Qed.

Lemma split_token (n : string) :
  n ≠ "" -> no_space n = true -> Py.split n = [n].
Proof.
  unfold no_space. induction n as [|c n IH]; [done|].
  intros _ [Hc%negb_true_iff Hn]%andb_true_iff.
  destruct n as [|c' n]; [by simpl; rewrite Hc|].
  specialize (IH ltac:(done) Hn).
  change (Py.split (String c (String c' n))) with
    (if Py.is_space c then Py.split (String c' n)
     else if Py.is_space c' then String c EmptyString :: Py.split (String c' n)
          else match Py.split (String c' n) with
               | w :: ws => String c w :: ws
               | [] => [String c EmptyString]
               end).
  rewrite Hc, IH.
  simpl in Hn. apply andb_true_iff in Hn as [Hc'%negb_true_iff _].
  by rewrite Hc'.
Qed.

(** The last token of a title key is its numeral. *)
Lemma trailing_title_key (n : string) :
  n ≠ "" -> no_space n = true -> trailing (why_chose_title_key n) = n.
Proof.
  intros Hne Hn. unfold trailing, Py.last_token, why_chose_title_key.
  change ("Why chose this product Title " +:+ n)
    with ("Why chose this product Title" +:+ String " " n).
  rewrite split_app_blank, (split_token n Hne Hn).
  by rewrite last_snoc.
Qed.

Lemma why_title_not_listed (k : string) (l : list string) :
  Py.contains "why chose this product title" (Py.lower k) = true ->
  forallb (fun x => negb (Py.contains "why chose this product title" (Py.lower x))) l
  = true ->
  Py.in_list k l = false.
Proof.
  intros Hk Hl. apply in_list_not_elem. intros Hin%list_elem_of_In.
  rewrite forallb_forall in Hl. specialize (Hl k Hin).
  by rewrite Hk in Hl.
Qed.

(** The Why-chose branch, as the code has it.  A title key ending in the
    token [n] is
    paired with ["Why chose this product n"] and with no other field.
    When the field reaches the Why-chose branch and the record has the
    content field with a value, the iteration emits the level-3 heading
    with the title's value, then the paragraph with the content, and
    marks both fields; when the content field is absent or empty, it
    emits nothing and marks nothing, the title field included. *)
Theorem why_chose_pairing :
  (forall n, n ≠ "" -> no_space n = true ->
             trailing (why_chose_title_key n) = n)
  /\ (forall (rec : record) (p : gset string) (k v : string),
        Py.truthy v = true -> k ∉ p ->
        Py.contains "why chose this product title" (Py.lower k) = true ->
        Py.contains "description" (Py.lower k) = false ->
        Py.contains "what is" (Py.lower k) = false ->
        let content_key := "Why chose this product " +:+ trailing k in
        (forall c, lookup_field content_key rec = Some c -> c ≠ "" ->
           process_field rec p k v =
           ({[content_key]} ∪ ({[k]} ∪ p),
            [Heading k 3 v 14; Paragraph content_key c]))
        /\ (lookup_field content_key rec = None
            \/ lookup_field content_key rec = Some "" ->
            process_field rec p k v = (p, []))).
Proof.
  split; [exact trailing_title_key|].
  intros rec p k v Hv Hp Hk Hd Hw content_key.
  assert (Py.in_list k skip_fields = false) as Hskip
    by by apply why_title_not_listed.
  assert (Py.in_list k table1_fields = false) as Ht1
    by by apply why_title_not_listed.
  assert (Py.in_list k ["SKU"; "Scientific Name / mix %"] = false) as Hid
    by by apply why_title_not_listed.
  assert (process_field rec p k v =
          if present_nonempty content_key rec
          then ({[content_key]} ∪ ({[k]} ∪ p),
                [Heading k 3 v 14;
                 Paragraph content_key (get_field content_key "" rec)])
          else (p, [])) as ->.
  { unfold process_field, format_field_name.
    rewrite Hv, (bool_decide_eq_false_2 _ Hp), Hskip, Ht1, Hid, Hd, Hw, Hk.
    reflexivity. }
  unfold present_nonempty, get_field. split.
  - intros c -> Hc%truthy_nonempty. by rewrite Hc.
  - by intros [-> | ->].
Qed.

Lemma why_chose_pairing_witness :
  trailing "Why chose this product Title 3" = "3"
  /\ process_field paired {["Title"]} "Why chose this product Title 3" "Hardy"
     = ({["Why chose this product 3"]}
        ∪ ({["Why chose this product Title 3"]} ∪ {["Title"]}),
        [Heading "Why chose this product Title 3" 3 "Hardy" 14;
         Paragraph "Why chose this product 3" "It survives drought."])
  /\ process_field orphan_title {["Title"]} "Why chose this product Title 3" "Hardy"
     = ({["Title"]}, []).
Proof.
  destruct why_chose_pairing as [Hnum Hpair].
  split; [|split].
  - apply (Hnum "3"); [discriminate | reflexivity].
  - apply Hpair; [reflexivity | | reflexivity | reflexivity | reflexivity
                 | reflexivity | discriminate].
    apply (bool_decide_unpack _). vm_compute. exact I.
  - apply Hpair; [reflexivity | | reflexivity | reflexivity | reflexivity
                 | left; reflexivity].
    apply (bool_decide_unpack _). vm_compute. exact I.
Defined.

(** A title whose content field is absent is not added to
    [processed_fields]. *)
Lemma orphan_title_not_marked :
  lookup_field "Why chose this product 3" orphan_title = None
  /\ rendered orphan_title = [Title "Blue Flax"]
  /\ ~ "Why chose this product Title 3" ∈ consumed orphan_title.
Proof.
  split; [reflexivity|]. split; [reflexivity|].
  apply (bool_decide_unpack _). vm_compute. exact I.
Qed.

(** C3.  A Why-chose title is paired with its content as specified
    ([why_chose_pairing]), but a title whose content field is absent is
    skipped without being marked, where the specification has it
    marked.  In the record [title_without_content] the iteration of the
    title emits nothing and leaves [processed_fields] as it was, and the
    title is not in the set at the end of the build.  The gate of table
    2 therefore stays shut for the whole build: [Uses] and [Color] are
    printed as labelled paragraphs and no Plant Characteristics table is
    built, whereas the same record with the content builds it.  The
    other paths that skip a field with a value do mark it: a technical
    field, and a Why-chose content field without title. *)
Theorem title_without_content_not_marked :
  lookup_field "Why chose this product 1" title_without_content = None
  /\ snd (process_field title_without_content {["Title"]}
            "Why chose this product Title 1" "Hardy") = []
  /\ ("Why chose this product Title 1"
        ∉ fst (process_field title_without_content {["Title"]}
                 "Why chose this product Title 1" "Hardy"))
  /\ ("Why chose this product Title 1" ∉ consumed title_without_content)
  /\ rendered title_without_content
     = [Title "Blue Flax";
        LabeledParagraph "Uses" "Uses" "Borders" 11;
        LabeledParagraph "Color" "Color" "Blue" 11]
  /\ tables_titled "Plant Characteristics" (rendered title_without_content) = []
  /\ rendered title_with_content
     = [Title "Blue Flax";
        Heading "Why chose this product Title 1" 3 "Hardy" 14;
        Paragraph "Why chose this product 1" "It survives drought.";
        Table "Plant Characteristics" [("Uses", "Borders"); ("Color", "Blue")]]
  /\ ("Why chose this product Title 1" ∈ consumed title_with_content)
  /\ snd (process_field title_without_content {["Title"]} "Cost" "5") = []
  /\ ("Cost"
        ∈ fst (process_field title_without_content {["Title"]} "Cost" "5"))
  /\ snd (process_field title_without_content {["Title"]}
            "Why chose this product 9" "Text") = []
  /\ ("Why chose this product 9"
        ∈ fst (process_field title_without_content {["Title"]}
                 "Why chose this product 9" "Text")).
Proof.
  repeat split;
    first [ reflexivity
          | apply (bool_decide_unpack _); vm_compute; exact I ].
Qed.

(** [key.split()[-1]] does not raise in the branches that use it: a key
    that contains, in lower case, a text starting with a character that
    is not whitespace, or that starts with such a text, has a token. *)
Lemma split_blank (s : string) :
  all_chars Py.is_space s = false -> Py.split s ≠ [].
Proof.
  induction s as [|c s IH]; [done|].
  destruct (Py.is_space c) eqn:Hc.
  - simpl. rewrite Hc. exact IH.
  - intros _. by apply split_head.
Qed.

Lemma is_space_to_lower (c : ascii) : Py.is_space (Py.to_lower c) = Py.is_space c.
Proof. destruct c as [[] [] [] [] [] [] [] []]; reflexivity. Qed.

Lemma all_space_lower (s : string) :
  all_chars Py.is_space (Py.lower s) = all_chars Py.is_space s.
Proof.
  unfold Py.lower. induction s as [|c s IH]; [done|]. simpl.
  by rewrite is_space_to_lower, IH.
Qed.

Lemma prefix_not_blank (a : ascii) (needle hay : string) :
  Py.is_space a = false -> String.prefix (String a needle) hay = true ->
  all_chars Py.is_space hay = false.
Proof.
  intros Ha. destruct hay as [|b hay]; simpl; [done|].
  destruct (ascii_dec a b) as [<-|]; [|done]. by rewrite Ha.
Qed.

Lemma contains_not_blank (a : ascii) (needle hay : string) :
  Py.is_space a = false -> Py.contains (String a needle) hay = true ->
  all_chars Py.is_space hay = false.
Proof.
  intros Ha. induction hay as [|b hay IH]; [done|].
  unfold Py.contains; fold Py.contains.
  intros [H|H]%orb_true_iff.
  - by eapply prefix_not_blank.
  - simpl. rewrite (IH H). apply andb_false_r.
Qed.

Lemma last_token_contains (a : ascii) (needle key : string) :
  Py.is_space a = false ->
  Py.contains (String a needle) (Py.lower key) = true ->
  is_Some (Py.last_token key).
Proof.
  intros Ha H. apply (contains_not_blank a) in H; [|done].
  rewrite all_space_lower in H. apply split_blank in H.
  unfold Py.last_token. destruct (Py.split key) as [|w ws] using rev_ind; [done|].
  rewrite last_snoc. by eexists.
Qed.

Lemma last_token_startswith (a : ascii) (p key : string) :
  Py.is_space a = false -> Py.startswith (String a p) key = true ->
  is_Some (Py.last_token key).
Proof.
  intros Ha H. apply (prefix_not_blank a) in H; [|done].
  apply split_blank in H.
  unfold Py.last_token. destruct (Py.split key) as [|w ws] using rev_ind; [done|].
  rewrite last_snoc. by eexists.
Qed.

(** ** The response of the service *)

Lemma after_first_inv (c : ascii) (s rest : string) :
  after_first c s = Some rest ->
  exists pre, s = pre +:+ String c rest /\ no_char c pre = true.
Proof.
  induction s as [|a s IH]; [done|]. simpl.
  destruct (Ascii.eqb_spec a c) as [->|Hac].
  - intros [= ->]. by exists "".
  - intros (pre & -> & Hpre)%IH. exists (String a pre). split; [done|].
    unfold no_char in *. simpl. rewrite Hpre.
    by apply Ascii.eqb_neq in Hac as ->.
Qed.

Lemma after_first_app (c : ascii) (pre rest : string) :
  no_char c pre = true -> after_first c (pre +:+ String c rest) = Some rest.
Proof.
  unfold no_char. induction pre as [|a pre IH].
  - intros _. rewrite append_empty_l. simpl. by rewrite Ascii.eqb_refl.
  - intros [Ha%negb_true_iff Hpre]%andb_true_iff.
    rewrite append_cons. simpl. rewrite Ha. auto.
Qed.

Lemma after_first_none (c : ascii) (s : string) :
  after_first c s = None <-> no_char c s = true.
Proof.
  unfold no_char. induction s as [|a s IH]; [done|]. simpl.
  destruct (Ascii.eqb a c); simpl; [split; discriminate | exact IH].
Qed.

Lemma upto_last_none (c : ascii) (s : string) :
  upto_last c s = None <-> no_char c s = true.
Proof.
  unfold no_char. induction s as [|a s IH]; [done|]. simpl.
  destruct (upto_last c s) as [r|].
  - split; [done|]. intros [_ H]%andb_true_iff. apply IH in H. done.
  - destruct (Ascii.eqb a c); simpl; [split; discriminate|].
    split; [intros _; by apply IH | done].
Qed.

Lemma upto_last_inv (c : ascii) (s body : string) :
  upto_last c s = Some body ->
  exists mid post,
    s = mid +:+ String c post /\ body = mid +:+ String c ""
    /\ no_char c post = true.
Proof.
  revert body. induction s as [|a s IH]; intros body; [done|]. simpl.
  destruct (upto_last c s) as [r|] eqn:E.
  - intros [= <-]. destruct (IH r eq_refl) as (mid & post & -> & -> & Hpost).
    by exists (String a mid), post.
  - destruct (Ascii.eqb_spec a c) as [->|]; [|done].
    intros [= <-]. exists "", s. by apply upto_last_none in E.
Qed.

Lemma upto_last_app (c : ascii) (mid post : string) :
  no_char c post = true ->
  upto_last c (mid +:+ String c post) = Some (mid +:+ String c "").
Proof.
  intros Hpost. induction mid as [|a mid IH].
  - rewrite !append_empty_l. simpl.
    apply upto_last_none in Hpost as ->. by rewrite Ascii.eqb_refl.
  - rewrite !append_cons. simpl. by rewrite IH.
Qed.

(** The match of the pattern is the text from the first opening brace
    through the last closing brace. *)
Lemma search_braces_inv (text m : string) :
  search_braces text = Some m ->
  exists pre mid post,
    text = pre +:+ "{" +:+ mid +:+ "}" +:+ post
    /\ m = "{" +:+ mid +:+ "}"
    /\ no_char "{" pre = true /\ no_char "}" post = true.
Proof.
  unfold search_braces.
  destruct (after_first "{" text) as [rest|] eqn:E1; [|done].
  destruct (upto_last "}" rest) as [body|] eqn:E2; [|done].
  intros [= <-].
  apply after_first_inv in E1 as (pre & -> & Hpre).
  apply upto_last_inv in E2 as (mid & post & -> & -> & Hpost).
  by exists pre, mid, post.
Qed.

Lemma search_braces_span (pre mid post : string) :
  no_char "{" pre = true -> no_char "}" post = true ->
  search_braces (pre +:+ "{" +:+ mid +:+ "}" +:+ post)
  = Some ("{" +:+ mid +:+ "}").
Proof.
  intros Hpre Hpost. unfold search_braces.
  change (pre +:+ "{" +:+ mid +:+ "}" +:+ post)
    with (pre +:+ String "{" (mid +:+ String "}" post)).
  rewrite (after_first_app _ _ _ Hpre), (upto_last_app _ _ _ Hpost).
  done.
Qed.

Lemma search_braces_none (text : string) :
  search_braces text = None <->
  no_char "{" text = true
  \/ exists pre rest, text = pre +:+ String "{" rest
                      /\ no_char "{" pre = true /\ no_char "}" rest = true.
Proof.
  unfold search_braces. split.
  - destruct (after_first "{" text) as [rest|] eqn:E1.
    + destruct (upto_last "}" rest) as [body|] eqn:E2; [done|]. intros _.
      apply after_first_inv in E1 as (pre & -> & Hpre).
      apply upto_last_none in E2. right. by exists pre, rest.
    + intros _. left. by apply after_first_none.
  - intros [H|(pre & rest & -> & Hpre & Hrest)].
    + by apply after_first_none in H as ->.
    + rewrite (after_first_app _ _ _ Hpre).
      by apply upto_last_none in Hrest as ->.
Qed.

(** C7, as the code has it, for whatever [json.loads] accepts.  The
    call that raises gives the failure value.  Otherwise, with [text]
    the stripped answer: when [text] parses as a whole, its value is
    returned; when it does not, the text from its first opening brace
    through its last closing brace is parsed instead, and its value is
    returned when it parses and the failure value when it does not; when
    [text] has no opening brace, or no closing brace after the first
    opening one, the result is the failure value. *)
Theorem response_parsing (json_loads : string -> option Json.value) :
  get_product_info_from_openai json_loads None = Json.JNull
  /\ forall content,
       let text := Py.strip Py.is_space content in
       (forall v, json_loads text = Some v ->
                  get_product_info_from_openai json_loads (Some content) = v)
       /\ (forall pre mid post,
             json_loads text = None ->
             text = pre +:+ "{" +:+ mid +:+ "}" +:+ post ->
             no_char "{" pre = true -> no_char "}" post = true ->
             get_product_info_from_openai json_loads (Some content)
             = default Json.JNull (json_loads ("{" +:+ mid +:+ "}")))
       /\ (json_loads text = None ->
           (no_char "{" text = true
            \/ exists pre rest, text = pre +:+ String "{" rest
                                /\ no_char "{" pre = true
                                /\ no_char "}" rest = true) ->
           get_product_info_from_openai json_loads (Some content) = Json.JNull).
Proof.
  split; [done|]. intros content text.
  unfold get_product_info_from_openai, parse_response. fold text.
  split; [|split].
  - by intros v ->.
  - intros pre mid post -> Htext Hpre Hpost.
    by rewrite Htext, (search_braces_span _ _ _ Hpre Hpost).
  - intros -> Hnone. by apply search_braces_none in Hnone as ->.
Qed.

Lemma response_parsing_witness :
  get_product_info_from_openai Json.loads
    (Some (Json.q "  Here it is: {'Title': 'Blue Flax'} Enjoy!  "))
  = Json.JObj [("Title", Json.JStr "Blue Flax")]
  /\ get_product_info_from_openai Json.loads (Some (Json.q "{'Title': 'Blue Flax'}"))
     = Json.JObj [("Title", Json.JStr "Blue Flax")]
  /\ get_product_info_from_openai Json.loads (Some "Sorry, no data. } {")
     = Json.JNull.
Proof.
  destruct (response_parsing Json.loads) as [_ H].
  split; [|split].
  - destruct (H (Json.q "  Here it is: {'Title': 'Blue Flax'} Enjoy!  "))
      as (_ & Hspan & _).
    apply (Hspan "Here it is: " (Json.q "'Title': 'Blue Flax'") " Enjoy!");
      reflexivity.
  - destruct (H (Json.q "{'Title': 'Blue Flax'}")) as (Hwhole & _).
    apply Hwhole. reflexivity.
  - destruct (H "Sorry, no data. } {") as (_ & _ & Hnone).
    apply Hnone; [reflexivity|]. right.
    exists "Sorry, no data. } ", "". split; [reflexivity|].
    split; reflexivity.
Defined.

(** C7 as stated fails: [chatty_reply] holds a well-formed object,
    the first one in it, but the text matched runs on to the last
    closing brace of the reply, does not parse, and the result is the
    failure value. *)
Lemma first_object_not_extracted :
  chatty_reply
  = "Sure! " +:+ Json.q "{'Title': 'Blue Flax'}" +:+ " Let me know if {this} helps."
  /\ Json.loads (Json.q "{'Title': 'Blue Flax'}")
     = Some (Json.JObj [("Title", Json.JStr "Blue Flax")])
  /\ search_braces (Py.strip Py.is_space chatty_reply)
     = Some (Json.q "{'Title': 'Blue Flax'} Let me know if {this}")
  /\ get_product_info_from_openai Json.loads (Some chatty_reply) = Json.JNull.
Proof. repeat split; vm_compute; reflexivity. Qed.

(** ** The store *)

Lemma already_exists_collision (title : string) (existing_products : list Json.value) :
  Forall (fun e => is_Some (title_lower e)) existing_products ->
  Exists (fun e => title_lower e = Some (Py.lower title)) existing_products ->
  already_exists title existing_products = Some true.
Proof.
  intros Hall Hex. induction existing_products as [|e rest IH].
  - by apply Exists_nil in Hex.
  - apply Forall_cons in Hall as [[t Ht] Hall]. simpl. rewrite Ht.
    destruct (String.eqb_spec t (Py.lower title)) as [_|Hne]; [done|].
    apply Exists_cons in Hex as [Hex|Hex]; [congruence | auto].
Qed.

(** With the case folding of [Py], the definitions of [Unicode] are
    those used on ASCII text. *)
Lemma already_exists_ascii (title : string)
    (existing_products : list Json.value) :
  Unicode.already_exists Py.lower title existing_products
  = already_exists title existing_products.
Proof.
  induction existing_products as [|e rest IH]; [done|].
  simpl. fold (title_lower e). by rewrite IH.
Qed.

Lemma add_new_product_ascii (json_loads : string -> option Json.value)
    (title : string) (api_key : option string) (is_mix : bool)
    (mix_components : option (list string)) (response : option string)
    (w : world) :
  Unicode.add_new_product json_loads Py.lower title api_key is_mix
    mix_components response w
  = add_new_product json_loads title api_key is_mix mix_components response w.
Proof.
  unfold Unicode.add_new_product, add_new_product.
  by rewrite already_exists_ascii.
Qed.





(** A mix without its components raises as well ([TypeError], in the
    message that lists them) once the key is found. *)
Lemma mix_without_components_raises :
  Unicode.add_new_product Json.loads Py.lower "blue flax" None true None
    (Some (Json.q "{'Title': 'Blue Flax'}")) stored_blue_flax
  = None.
Proof. reflexivity. Qed.

(** Without a collision the record is appended and saved once. *)
Lemma fresh_title_added :
  add_new_product Json.loads "Yarrow" None false None
    (Some (Json.q "{'Title': 'Yarrow'}")) stored_blue_flax
  = Some (true,
          {| environ_api_key := Some "sk-test";
             products_data_json :=
               Some [Json.JObj [("Title", Json.JStr "Blue FLAX")];
                     Json.JObj [("Title", Json.JStr "Yarrow")]];
             save_calls :=
               [[Json.JObj [("Title", Json.JStr "Blue FLAX")];
                 Json.JObj [("Title", Json.JStr "Yarrow")]]] |}).
Proof. vm_compute. reflexivity. Qed.

(** ** The command line *)

(** C9.  With [--product name] the block calls [load_products], a
    name the module does not bind: the run ends in a [NameError] before
    any record is matched, whatever the name and the collection; no
    document is saved and no message of the program is printed. *)
Theorem product_mode_raises_name_error (prog name : string) (rest : list string)
    (products : list record) :
  script (prog :: "--product" :: name :: rest) products
  = {| saved := []; stdout := [];
       ended := Uncaught "NameError: name 'load_products' is not defined" |}.
Proof. reflexivity. Qed.

(** Past that call, a record found would stop at [os.path.exists], [os]
    being imported inside [main()] only; a name that matches no title
    gives the message and exit status 1. *)
Lemma regenerate_found (name : string) (products : list record)
    (target_product : record) :
  find_product name products = Some target_product ->
  target_product ≠ [] ->
  regenerate name products
  = {| saved := [];
       stdout := ["Regenerating document for: " +:+ name];
       ended := Uncaught "NameError: name 'os' is not defined" |}.
Proof.
  intros Hfind Hne. unfold regenerate. rewrite Hfind.
  by destruct target_product.
Qed.

Lemma regenerate_not_found (name : string) (products : list record) :
  find_product name products = None ->
  regenerate name products
  = {| saved := [];
       stdout := ["Product '" +:+ name +:+ "' not found in products database."];
       ended := Exit 1 |}.
Proof. intros Hfind. unfold regenerate. by rewrite Hfind. Qed.

(** Without the flag every record is rendered and saved. *)
Lemma default_mode_saves_all (prog : string) (products : list record) :
  saved (script [prog] products) = generate_from 1 products
  /\ length (saved (script [prog] products)) = length products.
Proof.
  split; [done|]. simpl. generalize 1.
  induction products as [|r products IH]; intros n; simpl; [done|].
  by rewrite IH.
Qed.


(** * Further properties of [generate_product_docs.py] *)

(** ** What one iteration prints and marks *)

Lemma elem_of_literal_false (x : string) (l : list string) :
  Py.in_list x l = false -> x ∈ l -> False.
Proof. intros H Hin. by apply in_list_not_elem in H. Qed.

Lemma skip_not_table2 (k : string) :
  k ∈ skip_fields -> k ∈ table2_fields -> False.
Proof.
  intros H1%in_list_elem H2. revert H1.
  unfold table2_fields in H2.
  repeat (apply elem_of_cons in H2 as [->|H2]; [by vm_compute|]).
  by apply elem_of_nil in H2.
Qed.

(** The fields an iteration prints: the field at hand, fields of the
    two groups, or the content field paired with the field at hand. *)
Lemma process_field_printed (rec : record) (p p' : gset string) (k v f : string)
    (out : list instr) (i : instr) :
  process_field rec p k v = (p', out) ->
  i ∈ out -> f ∈ fields_of i ->
  Py.truthy v = true /\ (k ∉ p)
  /\ (f = k \/ f ∈ table1_fields \/ f ∈ table2_fields
      \/ f = "Why chose this product " +:+ trailing k).
Proof.
  intros H%process_field_inv Hi Hf. destruct H;
    try match goal with H : single_instr _ _ _ |- _ => destruct H end;
    repeat match goal with
      | H : _ ∈ [] |- _ => by apply elem_of_nil in H
      | H : _ ∈ table_instr _ _ |- _ =>
          apply elem_of_table_instr in H as [-> _]; unfold fields_of in *
      | H : _ ∈ (collect _ _).*1 |- _ => apply collect_keys_present in H as [H _]
      | H : _ ∈ _ :: _ |- _ =>
          apply elem_of_cons in H as [->|H]; unfold fields_of in *
      end; subst; auto 10.
Qed.

(** The fields an iteration marks. *)
Lemma process_field_marked (rec : record) (p p' : gset string) (k v k' : string)
    (out : list instr) :
  process_field rec p k v = (p', out) ->
  k' ∈ p' ->
  k' ∈ p
  \/ (Py.truthy v = true /\ (k ∉ p)
      /\ (k' = k \/ k' ∈ table1_fields \/ k' ∈ table2_fields
          \/ k' = "Why chose this product " +:+ trailing k)).
Proof.
  intros H%process_field_inv Hk'. destruct H;
    repeat match goal with
      | H : _ ∈ add_all _ _ |- _ => apply elem_of_add_all in H as [H|H]
      | H : _ ∈ _ ∪ _ |- _ => apply elem_of_union in H as [H|H]
      | H : _ ∈ {[ _ ]} |- _ => apply elem_of_singleton in H; subst
      | H : _ ∈ (collect _ _).*1 |- _ => apply collect_keys_present in H as [H _]
      end; auto 10.
Qed.

(** A technical field prints nothing. *)
Lemma process_field_technical (rec : record) (p : gset string) (k v : string) :
  k ∈ skip_fields -> (process_field rec p k v).2 = [].
Proof.
  intros Hk%in_list_elem. unfold process_field, format_field_name.
  rewrite Hk. by destruct (negb (Py.truthy v) || bool_decide (k ∈ p)).
Qed.

(** A field with a value that is not the title of a Why-chose pair is
    marked by its iteration, if it was not before. *)
Lemma process_field_marks_key (rec : record) (p p' : gset string) (k v : string)
    (out : list instr) :
  process_field rec p k v = (p', out) ->
  lookup_field k rec = Some v -> Py.truthy v = true ->
  Py.contains "why chose this product title" (Py.lower k) = false ->
  k ∈ p'.
Proof.
  intros H%process_field_inv Hl Hv Hk.
  assert ((k, v) ∈ collect table1_fields rec \/ k ∉ table1_fields) as Ht1.
  { destruct (decide (k ∈ table1_fields)); [left|by right].
    apply elem_of_collect. by rewrite <- truthy_nonempty. }
  assert (k ∈ table2_fields -> k ∈ (collect table2_fields rec).*1) as Ht2.
  { intros Hin. apply list_elem_of_fmap. exists (k, v). split; [done|].
    apply elem_of_collect. by rewrite <- truthy_nonempty. }
  destruct H; try congruence;
    rewrite ?elem_of_add_all, ?elem_of_union, ?elem_of_singleton; auto.
  - destruct H as [H|H]; [congruence | done].
  - left. destruct Ht1 as [Hin|Hn]; [|done].
    apply list_elem_of_fmap. by exists (k, v).
Qed.

Lemma content_key_why_chose (n : string) :
  Py.contains "why chose this product"
    (Py.lower ("Why chose this product " +:+ n)) = true.
Proof. reflexivity. Qed.

Lemma table_instr_prints (t : string) (data : list (string * string)) (f : string) :
  f ∈ data.*1 -> exists i, i ∈ table_instr t data /\ f ∈ fields_of i.
Proof.
  intros Hf. exists (Table t data). split; [|done].
  apply elem_of_table_instr. split; [done|]. intros ->.
  by apply elem_of_nil in Hf.
Qed.

(** A field marked by an iteration is technical, or a Why-chose
    field, or printed by that iteration. *)
Lemma process_field_marked_printed (rec : record) (p : gset string)
    (k v k' : string) :
  k' ∈ (process_field rec p k v).1 ->
  k' ∈ p \/ k' ∈ skip_fields
  \/ Py.contains "why chose this product" (Py.lower k') = true
  \/ exists i, i ∈ (process_field rec p k v).2 /\ k' ∈ fields_of i.
Proof.
  field_cases; simpl; intros Hk';
    repeat match goal with
      | H : _ ∈ add_all _ _ |- _ => apply elem_of_add_all in H as [H|H]
      | H : _ ∈ _ ∪ _ |- _ => apply elem_of_union in H as [H|H]
      | H : _ ∈ {[ _ ]} |- _ => apply elem_of_singleton in H; subst
      end; auto.
  all: try (right; right; right; by apply table_instr_prints).
  all: try (right; right; right; eexists; split;
            [apply list_elem_of_here | by apply list_elem_of_here]).
  all: try (right; right; right; eexists; split;
            [apply list_elem_of_further, list_elem_of_here
            | by apply list_elem_of_here]).
  all: try (right; right; left; by apply content_key_why_chose).
  - right; right; left. by apply andb_true_iff in H8 as [? _].
  - right; left. unfold format_field_name in H0.
    destruct (Py.in_list k skip_fields) eqn:E; [|done]. by apply in_list_elem.
Qed.

(** ** Fields that are never printed, fields that always are *)

(** A field that is processed already, or technical, and that is
    neither a group field nor a content field, is printed by no
    iteration. *)
Lemma process_fields_never_prints (rec : record)
    (items : list (string * string)) (p : gset string) (f : string) :
  f ∈ p \/ f ∈ skip_fields ->
  f ∉ table1_fields -> f ∉ table2_fields ->
  (forall n, f ≠ "Why chose this product " +:+ n) ->
  forall i, i ∈ (process_fields rec items p).2 -> f ∉ fields_of i.
Proof.
  intros Hf Ht1 Ht2 Hc. revert p Hf.
  induction items as [|[k v] items IH]; intros p Hf i.
  { by intros ?%elem_of_nil. }
  rewrite process_fields_cons. simpl.
  destruct (process_field rec p k v) as [p1 out1] eqn:E. simpl.
  intros [Hi|Hi]%elem_of_app Hin.
  - destruct (process_field_printed _ _ _ _ _ _ _ _ E Hi Hin)
      as (_ & Hp & [->|[?|[?|?]]]); [|done|done|by eapply Hc].
    destruct Hf as [?|Hskip]; [done|].
    pose proof (process_field_technical rec p k v Hskip) as Hnil.
    rewrite E in Hnil. simpl in Hnil. subst out1. by apply elem_of_nil in Hi.
  - revert Hin. apply (IH p1); [|done].
    destruct Hf as [Hf|?]; [left|by right].
    by apply (process_field_mono _ _ _ _ _ _ E).
Qed.

(** X1.  The title is printed exactly once, by the heading at the top
    of the document: no iteration of the loop prints it again, although
    its name is title-like. *)
Theorem title_printed_once (rec : record) :
  renders "Title" (rendered rec) = 1.
Proof.
  rewrite rendered_eq. unfold renders. simpl.
  change (S (renders "Title" (process_fields rec rec {["Title"]}).2) = 1).
  f_equal. apply renders_zero.
  apply process_fields_never_prints.
  - left. by apply elem_of_singleton.
  - by apply in_list_not_elem.
  - by apply in_list_not_elem.
  - intros n. discriminate.
Qed.

(** X2.  A technical field ([skip_fields]) is printed by no
    instruction of the document, whatever the record holds. *)
Theorem technical_field_never_printed (rec : record) (k : string) :
  k ∈ skip_fields -> renders k (rendered rec) = 0.
Proof.
  intros Hk. apply renders_zero. rewrite rendered_eq.
  assert (k ∉ table1_fields) as Ht1 by eauto using skip_not_table1.
  assert (k ∉ table2_fields) as Ht2 by eauto using skip_not_table2.
  assert (forall n, k ≠ "Why chose this product " +:+ n) as Hc.
  { intros n ->. revert Hk. apply in_list_not_elem. reflexivity. }
  intros i [->|Hi]%elem_of_cons.
  - intros ->%list_elem_of_singleton. revert Hk. by apply in_list_not_elem.
  - revert i Hi. apply process_fields_never_prints; auto.
Qed.

Lemma technical_field_never_printed_witness :
  renders "Cost"
    (rendered [("Title", "Blue Flax"); ("Cost", "4.50"); ("Uses", "Borders")])
  = 0.
Proof.
  apply technical_field_never_printed.
  unfold skip_fields. apply list_elem_of_further, list_elem_of_here.
Defined.

(** Every item with a value, other than a Why-chose title, is marked
    when the loop ends. *)
Lemma process_fields_marks (rec : record) (items : list (string * string))
    (p : gset string) (k v : string) :
  items_of_record rec items ->
  (k, v) ∈ items -> Py.truthy v = true ->
  Py.contains "why chose this product title" (Py.lower k) = false ->
  k ∈ (process_fields rec items p).1.
Proof.
  intros Hitems Hin Hv Hk. revert p Hitems Hin.
  induction items as [|[k0 v0] items IH]; intros p Hitems Hin.
  { by apply elem_of_nil in Hin. }
  apply items_of_record_cons in Hitems as [Hk0 Hitems].
  rewrite process_fields_cons. simpl.
  destruct (process_field rec p k0 v0) as [p1 out1] eqn:E. simpl.
  apply elem_of_cons in Hin as [[= <- <-]|Hin]; [|by apply IH].
  apply process_fields_mono.
  by apply (process_field_marks_key _ _ _ _ _ _ E).
Qed.

(** X3.  In a record with distinct keys, every field with a value that
    is not empty ends in [processed_fields], except possibly the titles
    of Why-chose pairs. *)
Theorem valued_field_consumed (rec : record) (k v : string) :
  NoDup rec.*1 -> (k, v) ∈ rec -> v ≠ "" ->
  Py.contains "why chose this product title" (Py.lower k) = false ->
  k ∈ consumed rec.
Proof.
  intros Hnd Hin Hv Hk. rewrite consumed_eq.
  apply (process_fields_marks rec rec _ k v); auto.
  - by apply record_items_of_record.
  - by apply truthy_nonempty.
Qed.

Lemma valued_field_consumed_witness :
  "Sun/Shade" ∈ consumed early_characteristic
  /\ "Why chose this product 1" ∈ consumed early_characteristic.
Proof.
  assert (NoDup early_characteristic.*1) as Hnd.
  { apply (bool_decide_unpack _). vm_compute. exact I. }
  split.
  - apply (valued_field_consumed _ _ "Full Sun" Hnd);
      [|discriminate|reflexivity].
    vm_compute. repeat first [apply list_elem_of_here | apply list_elem_of_further].
  - apply (valued_field_consumed _ _ "It survives drought." Hnd);
      [|discriminate|reflexivity].
    vm_compute. repeat first [apply list_elem_of_here | apply list_elem_of_further].
Defined.

(** What the loop has marked is technical, a Why-chose field, or
    printed. *)
Lemma process_fields_marked_printed (rec : record)
    (items : list (string * string)) (p : gset string) (k : string) :
  k ∈ (process_fields rec items p).1 ->
  k ∈ p \/ k ∈ skip_fields
  \/ Py.contains "why chose this product" (Py.lower k) = true
  \/ exists i, i ∈ (process_fields rec items p).2 /\ k ∈ fields_of i.
Proof.
  revert p. induction items as [|[k0 v0] items IH]; intros p; [by left|].
  rewrite process_fields_cons. simpl.
  intros [Hk|[?|[?|(i & Hi & Hf)]]]%IH; auto.
  - apply process_field_marked_printed in Hk
      as [?|[?|[?|(i & Hi & Hf)]]]; auto.
    right; right; right. exists i. split; [|done].
    apply elem_of_app. by left.
  - right; right; right. exists i. split; [|done].
    apply elem_of_app. by right.
Qed.

Lemma prefix_app_l (a b s : string) :
  String.prefix (a +:+ b) s = true -> String.prefix a s = true.
Proof.
  revert s. induction a as [|c a IH]; intros s; [by destruct s|].
  rewrite append_cons. destruct s as [|d s]; [done|]. simpl.
  destruct (ascii_dec c d); [apply IH | done].
Qed.

Lemma contains_app_l (a b s : string) :
  Py.contains (a +:+ b) s = true -> Py.contains a s = true.
Proof.
  induction s as [|d s IH]; unfold Py.contains; fold Py.contains.
  - intros [H|H]%orb_true_iff; [|done].
    by rewrite (prefix_app_l _ _ _ H).
  - intros [H|H]%orb_true_iff.
    + by rewrite (prefix_app_l _ _ _ H).
    + rewrite (IH H). apply orb_true_r.
Qed.

Lemma renders_positive (k : string) (out : list instr) (i : instr) :
  i ∈ out -> k ∈ fields_of i -> 1 <= renders k out.
Proof.
  unfold renders. intros Hi Hf.
  assert (In i (List.filter (fun i => Py.in_list k (fields_of i)) out)) as Hin.
  { apply filter_In. split; [by apply list_elem_of_In | by apply in_list_elem]. }
  destruct (List.filter _ out); [done | simpl; lia].
Qed.

(** X4.  No value is lost: in a record with distinct keys, every field
    with a value that is not empty, that is not technical and whose
    name does not contain "why chose this product", is printed by at
    least one instruction of the document. *)
Theorem valued_field_printed (rec : record) (k v : string) :
  NoDup rec.*1 -> (k, v) ∈ rec -> v ≠ "" ->
  k ∉ skip_fields ->
  Py.contains "why chose this product" (Py.lower k) = false ->
  1 <= renders k (rendered rec).
Proof.
  intros Hnd Hin Hv Hskip Hwhy.
  assert (Py.contains "why chose this product title" (Py.lower k) = false) as Ht.
  { apply not_true_is_false. intros E.
    change "why chose this product title"
      with ("why chose this product" +:+ " title") in E.
    apply contains_app_l in E. congruence. }
  assert (k ∈ (process_fields rec rec {["Title"]}).1) as Hc.
  { apply (process_fields_marks rec rec _ k v); auto.
    - by apply record_items_of_record.
    - by apply truthy_nonempty. }
  apply process_fields_marked_printed in Hc
    as [->%elem_of_singleton|[?|[?|(i & Hi & Hf)]]]; [|done|congruence|].
  - rewrite rendered_eq. eapply renders_positive;
      [apply list_elem_of_here | by apply list_elem_of_here].
  - rewrite rendered_eq. apply (renders_positive _ _ i); [|done].
    by apply list_elem_of_further.
Qed.

Lemma valued_field_printed_witness :
  1 <= renders "Uses" (rendered early_characteristic).
Proof.
  assert (NoDup early_characteristic.*1) as Hnd.
  { apply (bool_decide_unpack _). vm_compute. exact I. }
  apply (valued_field_printed _ _ "Borders" Hnd);
    [|discriminate| |reflexivity].
  - vm_compute. repeat first [apply list_elem_of_here | apply list_elem_of_further].
  - apply in_list_not_elem. reflexivity.
Defined.

(** ** The tables of a document *)

Lemma tables_titled_elem (t : string) (out : list instr) (i : instr) :
  i ∈ tables_titled t out -> exists rows, i = Table t rows /\ i ∈ out.
Proof.
  unfold tables_titled. intros [Hin Ht]%list_elem_of_In%filter_In.
  apply list_elem_of_In in Hin.
  destruct i as [|t' rows| | | | |]; try done. simpl in Ht.
  apply String.eqb_eq in Ht as ->. by exists rows.
Qed.

(** Once the Plant-Characteristics fields of the record are processed,
    no further table 2 is built. *)
Lemma process_fields_characteristics_after (rec : record)
    (items : list (string * string)) (p : gset string) :
  items_of_record rec items ->
  (forall k, k ∈ (collect table2_fields rec).*1 -> k ∈ p) ->
  tables_titled "Plant Characteristics" (process_fields rec items p).2 = [].
Proof.
  revert p. induction items as [|[k v] items IH]; intros p Hitems Hp; [done|].
  apply items_of_record_cons in Hitems as [Hk Hitems].
  rewrite process_fields_cons. simpl.
  destruct (process_field rec p k v) as [p1 out1] eqn:E. simpl.
  rewrite tables_titled_app, (IH p1 Hitems).
  2:{ intros k' Hk'. apply (process_field_mono _ _ _ _ _ _ E). auto. }
  rewrite app_nil_r. apply tables_titled_nil. intros rows Hin.
  apply (process_field_table _ _ _ _ _ _ _ _ E) in Hin
    as (Hv & Hnp & _ & [(Hne & _)|(_ & _ & Ht & _)]); [done|].
  apply Hnp, Hp. apply list_elem_of_fmap. exists (k, v). split; [done|].
  apply elem_of_collect. by rewrite <- truthy_nonempty.
Qed.

Lemma process_fields_characteristics_once (rec : record)
    (items : list (string * string)) (p : gset string) :
  items_of_record rec items ->
  length (tables_titled "Plant Characteristics" (process_fields rec items p).2)
  <= 1.
Proof.
  revert p. induction items as [|[k v] items IH]; intros p Hitems; [simpl; lia|].
  pose proof Hitems as [Hk Hitems']%items_of_record_cons.
  rewrite process_fields_cons. simpl. rewrite tables_titled_app, length_app.
  destruct (tables_titled "Plant Characteristics" (process_field rec p k v).2)
    as [|i rest] eqn:Etab.
  { simpl. by apply IH. }
  assert (i ∈ tables_titled "Plant Characteristics" (process_field rec p k v).2)
    as Hi by (rewrite Etab; apply list_elem_of_here).
  apply tables_titled_elem in Hi as (rows & -> & Hin).
  destruct (process_field rec p k v) as [p1 out1] eqn:E. simpl in *.
  apply (process_field_table _ _ _ _ _ _ _ _ E) in Hin
    as (Hv & Hnp & _ & [(Hne & _)|(_ & _ & Ht & Hgate)]); [done|].
  rewrite (gate_open_builds_table2 rec p k v Ht Hv Hnp Hgate) in E.
  injection E as <- <-.
  rewrite process_fields_characteristics_after; [|done|].
  2:{ intros k' Hk'. apply elem_of_add_all. by left. }
  assert (rest = []) as ->.
  { unfold table_instr in Etab.
    destruct (collect table2_fields rec); simpl in Etab; [done|].
    by injection Etab. }
  simpl. lia.
Qed.

(** X5.  In a record with distinct keys the Plant Characteristics
    table is built at most once, and the Growing Conditions table at
    most once. *)
Theorem group_tables_at_most_once (rec : record) :
  NoDup rec.*1 ->
  length (tables_titled "Plant Characteristics" (rendered rec)) <= 1
  /\ length (tables_titled "Growing Conditions" (rendered rec)) <= 1.
Proof.
  intros Hnd. rewrite rendered_eq. simpl. split.
  - apply process_fields_characteristics_once. by apply record_items_of_record.
  - pose proof (process_fields_growing_before rec rec {["Title"]}
                  (record_items_of_record rec Hnd)) as H.
    destruct (existsb _ rec).
    + destruct H as [-> _]; [|simpl; lia].
      intros k [Hk _]%collect_keys_present ->%elem_of_singleton.
      revert Hk. by apply in_list_not_elem.
    + rewrite H; [simpl; lia|].
      intros k [Hk _]%collect_keys_present ->%elem_of_singleton.
      revert Hk. by apply in_list_not_elem.
Qed.

Lemma group_tables_at_most_once_witness :
  length (tables_titled "Plant Characteristics" (rendered early_characteristic))
  <= 1.
Proof.
  assert (NoDup early_characteristic.*1) as Hnd.
  { apply (bool_decide_unpack _). vm_compute. exact I. }
  exact (proj1 (group_tables_at_most_once early_characteristic Hnd)).
Defined.

Lemma NoDup_table_fields : NoDup table1_fields /\ NoDup table2_fields.
Proof. split; apply (bool_decide_unpack _); vm_compute; exact I. Qed.

Lemma process_fields_tables_nonempty (rec : record)
    (items : list (string * string)) (p : gset string) (t : string)
    (rows : list (string * string)) :
  Table t rows ∈ (process_fields rec items p).2 -> rows ≠ [].
Proof.
  revert p. induction items as [|[k v] items IH]; intros p.
  { by intros ?%elem_of_nil. }
  rewrite process_fields_cons. simpl.
  destruct (process_field rec p k v) as [p1 out1] eqn:E. simpl.
  intros [Hi|Hi]%elem_of_app; [|by eapply IH].
  by apply (process_field_table _ _ _ _ _ _ _ _ E) in Hi as (_ & _ & ? & _).
Qed.

(** X6.  No table of a document is empty, no key occurs twice in a
    table, and every row is a field of the record with its value, which
    is not empty. *)
Theorem tables_well_formed (rec : record) (t : string)
    (rows : list (string * string)) :
  Table t rows ∈ rendered rec ->
  rows ≠ [] /\ NoDup rows.*1
  /\ forall f v, (f, v) ∈ rows -> v ≠ "" /\ (f, v) ∈ rec.
Proof.
  rewrite rendered_eq. intros [Hin|Hin]%elem_of_cons; [done|].
  assert (rows ≠ []) as Hne by by eapply process_fields_tables_nonempty.
  split; [done|].
  destruct NoDup_table_fields as [Hn1 Hn2].
  apply process_fields_tables in Hin as [[-> ->]|[-> ->]]; split.
  - apply (sublist_NoDup _ _ Hn1), collect_keys_sublist.
  - intros f v (_ & ?%lookup_field_Some & ?)%elem_of_collect. done.
  - apply (sublist_NoDup _ _ Hn2), collect_keys_sublist.
  - intros f v (_ & ?%lookup_field_Some & ?)%elem_of_collect. done.
Qed.

Lemma tables_well_formed_witness :
  collect table1_fields three_conditions ≠ []
  /\ NoDup (collect table1_fields three_conditions).*1.
Proof.
  assert (Table "Growing Conditions" (collect table1_fields three_conditions)
          ∈ rendered three_conditions) as Hin.
  { vm_compute. repeat first [apply list_elem_of_here | apply list_elem_of_further]. }
  destruct (tables_well_formed _ _ _ Hin) as (H1 & H2 & _).
  split; [exact H1 | exact H2].
Defined.

(** ** Table 2 comes after the Why-chose pairs *)

Lemma split_tokens_no_space (s w : string) :
  w ∈ Py.split s -> no_space w = true.
Proof.
  revert w. induction s as [|c s IH]; intros w.
  { by intros ?%elem_of_nil. }
  change (Py.split (String c s)) with
    (if Py.is_space c then Py.split s
     else match s with
          | EmptyString => [String c EmptyString]
          | String c' _ =>
              if Py.is_space c' then String c EmptyString :: Py.split s
              else match Py.split s with
                   | w :: ws => String c w :: ws
                   | [] => [String c EmptyString]
                   end
          end).
  destruct (Py.is_space c) eqn:Hc; [apply IH|].
  assert (no_space (String c "") = true) as Hone.
  { unfold no_space. simpl. by rewrite Hc. }
  destruct s as [|c' s].
  { by intros ->%list_elem_of_singleton. }
  destruct (Py.is_space c').
  { intros [->|?]%elem_of_cons; auto. }
  destruct (Py.split (String c' s)) as [|w0 ws].
  { by intros ->%list_elem_of_singleton. }
  intros [->|Hin]%elem_of_cons.
  - unfold no_space in *. simpl. rewrite Hc. simpl.
    apply (IH w0). apply list_elem_of_here.
  - apply IH. by apply list_elem_of_further.
Qed.

Lemma trailing_no_space (key : string) : no_space (trailing key) = true.
Proof.
  unfold trailing, Py.last_token.
  destruct (last (Py.split key)) as [w|] eqn:E; [|done]. simpl.
  apply (split_tokens_no_space key). apply last_Some in E as [l ->].
  apply elem_of_app. right. apply list_elem_of_here.
Qed.

(** What the iteration of one of the five titles does. *)
Lemma title_key_step (rec : record) (p : gset string) (i v : string) :
  i ∈ ["1"; "2"; "3"; "4"; "5"] -> Py.truthy v = true ->
  why_chose_title_key i ∉ p ->
  process_field rec p (why_chose_title_key i) v =
  if present_nonempty ("Why chose this product " +:+ i) rec
  then ({["Why chose this product " +:+ i]} ∪ ({[why_chose_title_key i]} ∪ p),
        [Heading (why_chose_title_key i) 3 v 14;
         Paragraph ("Why chose this product " +:+ i)
           (get_field ("Why chose this product " +:+ i) "" rec)])
  else (p, []).
Proof.
  intros Hi Hv Hp. unfold process_field.
  rewrite Hv, (bool_decide_eq_false_2 _ Hp).
  repeat (apply elem_of_cons in Hi as [->|Hi]; [reflexivity|]).
  by apply elem_of_nil in Hi.
Qed.

Lemma title_key_not_group (i : string) :
  i ∈ ["1"; "2"; "3"; "4"; "5"] ->
  (why_chose_title_key i ∉ table1_fields)
  /\ (why_chose_title_key i ∉ table2_fields).
Proof.
  intros Hi.
  repeat (apply elem_of_cons in Hi as [->|Hi];
          [split; apply in_list_not_elem; reflexivity|]).
  by apply elem_of_nil in Hi.
Qed.

(** One of the five titles is marked only by the iteration that prints
    its heading and the paragraph of its content. *)
Lemma title_key_marked (rec : record) (p : gset string) (k v i : string) :
  i ∈ ["1"; "2"; "3"; "4"; "5"] ->
  why_chose_title_key i ∈ (process_field rec p k v).1 ->
  why_chose_title_key i ∈ p
  \/ exists t c,
       Heading (why_chose_title_key i) 3 t 14 ∈ (process_field rec p k v).2
       /\ Paragraph ("Why chose this product " +:+ i) c
          ∈ (process_field rec p k v).2.
Proof.
  intros Hi Hin.
  destruct (process_field rec p k v) as [p1 out1] eqn:E. simpl in *.
  destruct (process_field_marked _ _ _ _ _ _ _ E Hin)
    as [?|(Hv & Hp & [<-|[Ht|[Ht|Hc]]])]; [by left| | | |].
  - rewrite (title_key_step rec p i v Hi Hv Hp) in E.
    destruct (present_nonempty _ rec); injection E as <- <-; [|by left].
    right. eexists _, _. split;
      [apply list_elem_of_here | apply list_elem_of_further, list_elem_of_here].
  - by destruct (proj1 (title_key_not_group i Hi)).
  - by destruct (proj2 (title_key_not_group i Hi)).
  - exfalso. unfold why_chose_title_key in Hc.
    change ("Why chose this product Title " +:+ i)
      with ("Why chose this product " +:+ ("Title " +:+ i)) in Hc.
    apply String.app_inj in Hc.
    pose proof (trailing_no_space k) as Hns. by rewrite <- Hc in Hns.
Qed.

Lemma gate_open_titles_done (rec : record) (p : gset string) (i : string) :
  why_chose_done rec p = true ->
  i ∈ ["1"; "2"; "3"; "4"; "5"] ->
  is_Some (lookup_field (why_chose_title_key i) rec) ->
  why_chose_title_key i ∈ p.
Proof.
  unfold why_chose_done. rewrite forallb_forall.
  intros H Hi%list_elem_of_In Hsome. specialize (H i Hi).
  rewrite (bool_decide_eq_true_2 _ Hsome) in H. simpl in H.
  apply negb_true_iff, negb_false_iff in H. by apply bool_decide_eq_true in H.
Qed.

Lemma process_fields_gate_order (rec : record) (items : list (string * string))
    (p : gset string) (pre post : list instr) (rows : list (string * string))
    (i : string) :
  (process_fields rec items p).2
  = pre ++ Table "Plant Characteristics" rows :: post ->
  i ∈ ["1"; "2"; "3"; "4"; "5"] ->
  is_Some (lookup_field (why_chose_title_key i) rec) ->
  why_chose_title_key i ∈ p
  \/ exists t c, Heading (why_chose_title_key i) 3 t 14 ∈ pre
                 /\ Paragraph ("Why chose this product " +:+ i) c ∈ pre.
Proof.
  intros Hout Hi Hsome. revert p pre Hout.
  induction items as [|[k v] items IH]; intros p pre Hout.
  { simpl in Hout. by destruct pre. }
  rewrite process_fields_cons in Hout. simpl in Hout.
  pose proof (title_key_marked rec p k v i Hi) as Hstep.
  destruct (process_field rec p k v) as [p1 out1] eqn:E. simpl in *.
  apply app_eq_app in Hout as [l [[-> Hl]|[-> Hl]]].
  - destruct l as [|x l].
    + simpl in Hl. rewrite app_nil_r in Hstep.
      destruct (IH p1 [] (eq_sym Hl)) as [Hin|(t & c & Hh & _)].
      * apply Hstep in Hin as [?|(t & c & ? & ?)]; [by left|].
        right. by exists t, c.
      * by apply elem_of_nil in Hh.
    + injection Hl as <- _.
      assert (Table "Plant Characteristics" rows ∈ pre ++ Table "Plant Characteristics" rows :: l)
        as Hin by (apply elem_of_app; right; apply list_elem_of_here).
      apply (process_field_table _ _ _ _ _ _ _ _ E) in Hin
        as (_ & _ & _ & [(Hne & _)|(_ & _ & _ & Hgate)]); [done|].
      left. by apply (gate_open_titles_done rec).
  - destruct (IH p1 l Hl) as [Hin|(t & c & Hh & Hp)].
    + apply Hstep in Hin as [?|(t & c & ? & ?)]; [by left|].
      right. exists t, c. split; apply elem_of_app; by left.
    + right. exists t, c. split; apply elem_of_app; by right.
Qed.

(** X7.  Wherever the Plant Characteristics table stands in a
    document, each of the five Why-chose titles that the record has was
    printed before it, as a heading, together with the paragraph of its
    content. *)
Theorem characteristics_after_why_chose (rec : record)
    (pre post : list instr) (rows : list (string * string)) (i : string) :
  rendered rec = pre ++ Table "Plant Characteristics" rows :: post ->
  i ∈ ["1"; "2"; "3"; "4"; "5"] ->
  is_Some (lookup_field (why_chose_title_key i) rec) ->
  exists t c, Heading (why_chose_title_key i) 3 t 14 ∈ pre
              /\ Paragraph ("Why chose this product " +:+ i) c ∈ pre.
Proof.
  rewrite rendered_eq. intros Hout Hi Hsome.
  destruct pre as [|x pre]; [done|]. injection Hout as <- Hout.
  destruct (process_fields_gate_order _ _ _ _ _ _ _ Hout Hi Hsome)
    as [Hin|(t & c & ? & ?)].
  - apply elem_of_singleton in Hin.
    exfalso. revert Hin. clear -Hi.
    repeat (apply elem_of_cons in Hi as [->|Hi]; [done|]).
    by apply elem_of_nil in Hi.
  - exists t, c. split; by apply list_elem_of_further.
Qed.

Lemma characteristics_after_why_chose_witness :
  exists t c,
    Heading "Why chose this product Title 1" 3 t 14
    ∈ [Title "Prairie Mix";
       LabeledParagraph "Sun/Shade" "Sun / Shade" "Full Sun" 11;
       Heading "Why chose this product Title 1" 3 "Hardy" 14;
       Paragraph "Why chose this product 1" "It survives drought."]
    /\ Paragraph "Why chose this product 1" c
       ∈ [Title "Prairie Mix";
          LabeledParagraph "Sun/Shade" "Sun / Shade" "Full Sun" 11;
          Heading "Why chose this product Title 1" 3 "Hardy" 14;
          Paragraph "Why chose this product 1" "It survives drought."].
Proof.
  apply (characteristics_after_why_chose early_characteristic _ []
           [("Sun/Shade", "Full Sun"); ("Uses", "Borders")] "1").
  - reflexivity.
  - apply list_elem_of_here.
  - by eexists.
Defined.

(** ** Identifier and numbered fields *)

(** In a record with distinct keys, a field that no other iteration
    can mark is met unmarked by its own iteration, and what that
    iteration prints is part of the document. *)
Lemma process_fields_reaches (rec : record) (items : list (string * string))
    (p : gset string) (k v : string) :
  NoDup items.*1 -> (k, v) ∈ items -> k ∉ p ->
  k ∉ table1_fields -> k ∉ table2_fields ->
  (forall n, k ≠ "Why chose this product " +:+ n) ->
  exists p0, (k ∉ p0)
    /\ forall i, i ∈ (process_field rec p0 k v).2 ->
                 i ∈ (process_fields rec items p).2.
Proof.
  intros Hnd Hin Hp Ht1 Ht2 Hc. revert p Hp.
  induction items as [|[k0 v0] items IH]; intros p Hp.
  { by apply elem_of_nil in Hin. }
  apply NoDup_cons in Hnd as [Hk0 Hnd].
  apply elem_of_cons in Hin as [[= <- <-]|Hin].
  - exists p. split; [done|]. intros i Hi.
    rewrite process_fields_cons. simpl. apply elem_of_app. by left.
  - assert (k ≠ k0) as Hne.
    { intros ->. apply Hk0. apply list_elem_of_fmap. by exists (k0, v). }
    destruct (process_field rec p k0 v0) as [p1 out1] eqn:E.
    destruct (IH Hnd Hin p1) as (p0 & Hp0 & Hsub).
    { intros Hk1.
      destruct (process_field_marked _ _ _ _ _ _ _ E Hk1)
        as [?|(_ & _ & [?|[?|[?|?]]])]; try done. by eapply Hc. }
    exists p0. split; [done|]. intros i Hi.
    rewrite process_fields_cons, E. simpl. apply elem_of_app. right. auto.
Qed.

Lemma identifier_step (rec : record) (p : gset string) (k v : string) :
  k ∈ ["SKU"; "Scientific Name / mix %"] -> Py.truthy v = true -> k ∉ p ->
  process_field rec p k v = ({[k]} ∪ p, [Heading k 2 v 16]).
Proof.
  intros Hk Hv Hp. unfold process_field.
  rewrite Hv, (bool_decide_eq_false_2 _ Hp).
  repeat (apply elem_of_cons in Hk as [->|Hk]; [reflexivity|]).
  by apply elem_of_nil in Hk.
Qed.

(** X8.  The SKU and the scientific-name field are always printed as
    level-2 headings: both names are title-like, so the labelled
    paragraph of that branch is never used. *)
Theorem identifier_printed_as_heading (rec : record) (k v : string) :
  NoDup rec.*1 -> (k, v) ∈ rec ->
  k ∈ ["SKU"; "Scientific Name / mix %"] -> v ≠ "" ->
  Heading k 2 v 16 ∈ rendered rec
  /\ forall label size, LabeledParagraph k label v size ∉ rendered rec.
Proof.
  intros Hnd Hin Hk Hv.
  assert ((k ∉ table1_fields) /\ (k ∉ table2_fields)
          /\ (forall n, k ≠ "Why chose this product " +:+ n)
          /\ k ≠ "Title") as (Ht1 & Ht2 & Hc & Ht).
  { repeat (apply elem_of_cons in Hk as [->|Hk];
            [repeat split; try (by apply in_list_not_elem); done|]).
    by apply elem_of_nil in Hk. }
  rewrite rendered_eq. split.
  - destruct (process_fields_reaches rec rec {["Title"]} k v)
      as (p0 & Hp0 & Hsub); auto.
    { by intros ?%elem_of_singleton. }
    apply list_elem_of_further, Hsub.
    rewrite identifier_step; [apply list_elem_of_here|done| |done].
    by apply truthy_nonempty.
  - intros label size [?|Hi]%elem_of_cons; [done|].
    revert Hi. generalize ({["Title"]} : gset string).
    generalize rec at 2. intros items.
    induction items as [|[k0 v0] items IH]; intros p.
    { by intros ?%elem_of_nil. }
    rewrite process_fields_cons. simpl.
    intros [Hi|Hi]%elem_of_app; [|by eapply IH].
    destruct (process_field rec p k0 v0) as [p1 out1] eqn:E. simpl in Hi.
    destruct (process_field_printed _ _ _ _ _ k _ _ E Hi)
      as (Hv0 & Hp & [<-|[?|[?|?]]]); try done.
    + apply list_elem_of_here.
    + rewrite identifier_step in E; [|done..].
      injection E as <- <-. by apply list_elem_of_singleton in Hi.
    + by eapply Hc.
Qed.

Lemma identifier_printed_as_heading_witness :
  Heading "SKU" 2 "W-BF-0.25-LB" 16 ∈ rendered three_conditions.
Proof.
  assert (NoDup three_conditions.*1) as Hnd.
  { apply (bool_decide_unpack _). vm_compute. exact I. }
  apply (identifier_printed_as_heading three_conditions "SKU" "W-BF-0.25-LB" Hnd).
  - vm_compute. repeat first [apply list_elem_of_here | apply list_elem_of_further].
  - apply list_elem_of_here.
  - discriminate.
Defined.

Lemma digit_facts (c : ascii) :
  Py.is_digit c = true ->
  Py.to_lower c = c /\ Py.is_space c = false.
Proof. destruct c as [[] [] [] [] [] [] [] []]; vm_compute; (done || split; done). Qed.

Lemma lower_app (a b : string) : Py.lower (a +:+ b) = Py.lower a +:+ Py.lower b.
Proof.
  unfold Py.lower. induction a as [|c a IH]; [done|].
  rewrite append_cons. simpl. by rewrite IH.
Qed.

Lemma lower_digits (n : string) : all_chars Py.is_digit n = true -> Py.lower n = n.
Proof.
  unfold Py.lower. induction n as [|c n IH]; [done|]. simpl.
  intros [Hc Hn]%andb_true_iff.
  by rewrite (proj1 (digit_facts c Hc)), IH.
Qed.

Lemma digits_no_space (n : string) :
  all_chars Py.is_digit n = true -> no_space n = true.
Proof.
  unfold no_space. apply all_chars_impl.
  intros c Hc. by rewrite (proj2 (digit_facts c Hc)).
Qed.

(** A text without digits does not reach into a run of digits. *)
Lemma prefix_app_digits (needle a n : string) :
  all_chars (fun c => negb (Py.is_digit c)) needle = true ->
  all_chars Py.is_digit n = true ->
  String.prefix needle (a +:+ n) = String.prefix needle a.
Proof.
  intros Hneedle Hn. revert needle Hneedle.
  induction a as [|x a IH]; intros needle Hneedle.
  - rewrite append_empty_l. destruct needle as [|c r]; [by destruct n|].
    destruct n as [|d n]; [done|]. simpl in *.
    apply andb_true_iff in Hneedle as [Hc%negb_true_iff _].
    apply andb_true_iff in Hn as [Hd _].
    destruct (ascii_dec c d) as [->|]; [congruence|done].
  - rewrite append_cons. destruct needle as [|c r]; [done|]. simpl in *.
    apply andb_true_iff in Hneedle as [_ Hr].
    destruct (ascii_dec c x); [by apply IH | done].
Qed.

Lemma contains_app_digits (needle a n : string) :
  needle ≠ "" ->
  all_chars (fun c => negb (Py.is_digit c)) needle = true ->
  all_chars Py.is_digit n = true ->
  Py.contains needle (a +:+ n) = Py.contains needle a.
Proof.
  intros Hne Hneedle Hn.
  assert (Py.contains needle n = false) as Hnone.
  { clear a. induction n as [|d n IH].
    - by destruct needle.
    - unfold Py.contains; fold Py.contains.
      pose proof (prefix_app_digits needle "" (String d n) Hneedle Hn) as Hp.
      rewrite append_empty_l in Hp. rewrite Hp.
      simpl in Hn. apply andb_true_iff in Hn as [_ Hn].
      rewrite (IH Hn). by destruct needle. }
  induction a as [|x a IH].
  - rewrite append_empty_l, Hnone. by destruct needle.
  - rewrite append_cons. unfold Py.contains; fold Py.contains.
    rewrite <- append_cons, (prefix_app_digits _ _ _ Hneedle Hn).
    by rewrite IH.
Qed.

Lemma numbered_key_lower (needle a n : string) :
  needle ≠ "" ->
  all_chars (fun c => negb (Py.is_digit c)) needle = true ->
  all_chars Py.is_digit n = true ->
  Py.contains needle (Py.lower (a +:+ n)) = Py.contains needle (Py.lower a).
Proof.
  intros Hne Hneedle Hn.
  rewrite lower_app, (lower_digits n Hn). by apply contains_app_digits.
Qed.

Lemma numbered_key_trailing (a n : string) :
  is_numeral n = true ->
  trailing (a +:+ String " " n) = n.
Proof.
  intros [Hne%truthy_nonempty Hn]%andb_true_iff.
  unfold trailing, Py.last_token.
  rewrite split_app_blank, (split_token n Hne (digits_no_space n Hn)).
  by rewrite last_snoc.
Qed.

Lemma prefix_app_self (a b : string) : String.prefix a (a +:+ b) = true.
Proof.
  induction a as [|c a IH]; [by destruct b|].
  rewrite append_cons. simpl. by destruct (ascii_dec c c).
Qed.

Lemma faq_step (rec : record) (p : gset string) (n v : string) :
  is_numeral n = true -> Py.truthy v = true -> "FAQ " +:+ n ∉ p ->
  process_field rec p ("FAQ " +:+ n) v
  = ({["FAQ " +:+ n]} ∪ p, [FaqItem ("FAQ " +:+ n) n v]).
Proof.
  intros Hnum Hv Hp.
  pose proof Hnum as [_ Hn]%andb_true_iff.
  unfold process_field, format_field_name.
  rewrite Hv, (bool_decide_eq_false_2 _ Hp).
  change (Py.in_list ("FAQ " +:+ n) skip_fields) with false.
  change (Py.in_list ("FAQ " +:+ n) table1_fields) with false.
  change (Py.in_list ("FAQ " +:+ n) ["SKU"; "Scientific Name / mix %"]) with false.
  change (Py.in_list ("FAQ " +:+ n) table2_fields) with false.
  unfold Py.startswith. rewrite prefix_app_self.
  rewrite !(numbered_key_lower _ "FAQ " n) by done.
  change (trailing ("FAQ " +:+ n)) with (trailing ("FAQ" +:+ String " " n)).
  rewrite (numbered_key_trailing "FAQ" n Hnum).
  reflexivity.
Qed.

Lemma planting_step (rec : record) (p : gset string) (n v : string) :
  is_numeral n = true -> Py.truthy v = true ->
  "Planting Guide Step " +:+ n ∉ p ->
  process_field rec p ("Planting Guide Step " +:+ n) v
  = ({["Planting Guide Step " +:+ n]} ∪ p,
     [SteppedItem ("Planting Guide Step " +:+ n) n v]).
Proof.
  intros Hnum Hv Hp.
  pose proof Hnum as [_ Hn]%andb_true_iff.
  unfold process_field, format_field_name.
  rewrite Hv, (bool_decide_eq_false_2 _ Hp).
  change (Py.in_list ("Planting Guide Step " +:+ n) skip_fields) with false.
  change (Py.in_list ("Planting Guide Step " +:+ n) table1_fields) with false.
  change (Py.in_list ("Planting Guide Step " +:+ n)
            ["SKU"; "Scientific Name / mix %"]) with false.
  change (Py.in_list ("Planting Guide Step " +:+ n) table2_fields) with false.
  rewrite !(numbered_key_lower _ "Planting Guide Step " n) by done.
  change (trailing ("Planting Guide Step " +:+ n))
    with (trailing ("Planting Guide Step" +:+ String " " n)).
  rewrite (numbered_key_trailing "Planting Guide Step" n Hnum).
  reflexivity.
Qed.

(** X9.  A field ["FAQ n"] or ["Planting Guide Step n"], [n] a
    numeral, with a value that is not empty is printed as the FAQ item
    or the step numbered [n]: the number shown is the numeral of the
    field's name. *)
Theorem numbered_field_printed (rec : record) (n v : string) :
  NoDup rec.*1 -> is_numeral n = true -> v ≠ "" ->
  (("FAQ " +:+ n, v) ∈ rec ->
   FaqItem ("FAQ " +:+ n) n v ∈ rendered rec)
  /\ (("Planting Guide Step " +:+ n, v) ∈ rec ->
      SteppedItem ("Planting Guide Step " +:+ n) n v ∈ rendered rec).
Proof.
  intros Hnd Hnum Hv%truthy_nonempty. rewrite rendered_eq. split; intros Hin.
  - destruct (process_fields_reaches rec rec {["Title"]} ("FAQ " +:+ n) v)
      as (p0 & Hp0 & Hsub); auto.
    + by intros ?%elem_of_singleton.
    + by apply in_list_not_elem.
    + by apply in_list_not_elem.
    + apply list_elem_of_further, Hsub.
      rewrite faq_step by done. apply list_elem_of_here.
  - destruct (process_fields_reaches rec rec {["Title"]}
                ("Planting Guide Step " +:+ n) v)
      as (p0 & Hp0 & Hsub); auto.
    + by intros ?%elem_of_singleton.
    + by apply in_list_not_elem.
    + by apply in_list_not_elem.
    + apply list_elem_of_further, Hsub.
      rewrite planting_step by done. apply list_elem_of_here.
Qed.

Lemma numbered_field_printed_witness :
  FaqItem "FAQ 1" "1" "Is it perennial? Yes." ∈ rendered three_conditions.
Proof.
  assert (NoDup three_conditions.*1) as Hnd.
  { apply (bool_decide_unpack _). vm_compute. exact I. }
  apply (numbered_field_printed three_conditions "1" "Is it perennial? Yes." Hnd);
    [reflexivity | discriminate |].
  vm_compute. repeat first [apply list_elem_of_here | apply list_elem_of_further].
Defined.

(** ** Display names *)

Lemma case_facts (c : ascii) :
  Py.is_space (Py.to_upper c) = Py.is_space c
  /\ Py.to_upper (Py.to_upper c) = Py.to_upper c
  /\ Py.to_lower (Py.to_lower c) = Py.to_lower c
  /\ (is_underscore c = false ->
      is_underscore (Py.to_upper c) = false
      /\ is_underscore (Py.to_lower c) = false).
Proof. destruct c as [[] [] [] [] [] [] [] []]; vm_compute; repeat split; done. Qed.

Lemma split_tokens_nonempty (s w : string) : w ∈ Py.split s -> w ≠ "".
Proof.
  revert w. induction s as [|c s IH]; intros w.
  { by intros ?%elem_of_nil. }
  change (Py.split (String c s)) with
    (if Py.is_space c then Py.split s
     else match s with
          | EmptyString => [String c EmptyString]
          | String c' _ =>
              if Py.is_space c' then String c EmptyString :: Py.split s
              else match Py.split s with
                   | w :: ws => String c w :: ws
                   | [] => [String c EmptyString]
                   end
          end).
  destruct (Py.is_space c); [apply IH|].
  destruct s as [|c' s].
  { by intros ->%list_elem_of_singleton. }
  destruct (Py.is_space c').
  { intros [->|?]%elem_of_cons; auto. }
  destruct (Py.split (String c' s)) as [|w0 ws].
  { by intros ->%list_elem_of_singleton. }
  intros [->|Hin]%elem_of_cons; [done|].
  apply IH. by apply list_elem_of_further.
Qed.

Lemma split_tokens_chars (q : ascii -> bool) (s w : string) :
  all_chars q s = true -> w ∈ Py.split s -> all_chars q w = true.
Proof.
  revert w. induction s as [|c s IH]; intros w Hs.
  { by intros ?%elem_of_nil. }
  change (Py.split (String c s)) with
    (if Py.is_space c then Py.split s
     else match s with
          | EmptyString => [String c EmptyString]
          | String c' _ =>
              if Py.is_space c' then String c EmptyString :: Py.split s
              else match Py.split s with
                   | w :: ws => String c w :: ws
                   | [] => [String c EmptyString]
                   end
          end).
  simpl in Hs. apply andb_true_iff in Hs as [Hc Hs].
  assert (all_chars q (String c "") = true) as Hone by (simpl; by rewrite Hc).
  destruct (Py.is_space c); [by apply IH|].
  destruct s as [|c' s].
  { by intros ->%list_elem_of_singleton. }
  destruct (Py.is_space c').
  { intros [->|?]%elem_of_cons; auto. }
  destruct (Py.split (String c' s)) as [|w0 ws].
  { by intros ->%list_elem_of_singleton. }
  intros [->|Hin]%elem_of_cons.
  - simpl. rewrite Hc. simpl. apply (IH w0 Hs). apply list_elem_of_here.
  - apply (IH w Hs). by apply list_elem_of_further.
Qed.

(** Tokens joined by single blanks split back into the tokens. *)
Lemma split_join (ws : list string) :
  Forall (fun w => w ≠ "" /\ no_space w = true) ws ->
  Py.split (Py.join " " ws) = ws.
Proof.
  induction ws as [|w ws IH]; [done|].
  intros [[Hne Hns] Hws]%Forall_cons.
  destruct ws as [|w' ws]; [by apply split_token|].
  change (Py.join " " (w :: w' :: ws))
    with (w +:+ String " " (Py.join " " (w' :: ws))).
  rewrite split_app_blank, (split_token w Hne Hns), (IH Hws). done.
Qed.

Lemma join_chars (q : ascii -> bool) (ws : list string) :
  q " "%char = true -> Forall (fun w => all_chars q w = true) ws ->
  all_chars q (Py.join " " ws) = true.
Proof.
  intros Hq. induction ws as [|w ws IH]; [done|].
  intros [Hw Hws]%Forall_cons. destruct ws as [|w' ws]; [done|].
  change (Py.join " " (w :: w' :: ws))
    with (w +:+ String " " (Py.join " " (w' :: ws))).
  rewrite all_chars_app, Hw.
  change (all_chars q (String " " (Py.join " " (w' :: ws))))
    with (q " "%char && all_chars q (Py.join " " (w' :: ws))).
  by rewrite Hq, (IH Hws).
Qed.

Lemma replace_char_chars (q : ascii -> bool) (c : ascii) (r s : string) :
  all_chars q r = true ->
  (forall a, Ascii.eqb a c = false -> q a = true) \/ all_chars q s = true ->
  all_chars q (Py.replace_char c r s) = true.
Proof.
  intros Hr Hs. induction s as [|a s IH]; [done|]. simpl.
  assert ((forall a, Ascii.eqb a c = false -> q a = true)
          \/ all_chars q s = true) as Hs'.
  { destruct Hs as [?|[_ ?]%andb_true_iff]; auto. }
  destruct (Ascii.eqb a c) eqn:E.
  - rewrite all_chars_app, Hr. by apply IH.
  - simpl. rewrite (IH Hs'), andb_true_r.
    destruct Hs as [Hq|[? _]%andb_true_iff]; auto.
Qed.

Lemma lower_idemp (s : string) : Py.lower (Py.lower s) = Py.lower s.
Proof.
  unfold Py.lower. induction s as [|c s IH]; [done|]. simpl.
  rewrite IH. f_equal. apply case_facts.
Qed.

Lemma capitalize_idemp (w : string) :
  Py.capitalize (Py.capitalize w) = Py.capitalize w.
Proof.
  destruct w as [|c w]; [done|]. simpl. rewrite lower_idemp. f_equal.
  apply case_facts.
Qed.

Lemma capitalize_token (w : string) :
  w ≠ "" /\ no_space w = true ->
  Py.capitalize w ≠ "" /\ no_space (Py.capitalize w) = true.
Proof.
  intros [Hne Hns]. destruct w as [|c w]; [done|]. split; [done|].
  unfold no_space in *. simpl in *.
  apply andb_true_iff in Hns as [Hc Hw].
  rewrite (proj1 (case_facts c)), Hc. simpl.
  rewrite <- Hw. unfold Py.lower. clear. induction w as [|d w IH]; [done|].
  simpl. by rewrite is_space_to_lower, IH.
Qed.

Lemma capitalize_chars (w : string) :
  all_chars (fun c => negb (is_underscore c)) w = true ->
  all_chars (fun c => negb (is_underscore c)) (Py.capitalize w) = true.
Proof.
  assert (forall s, all_chars (fun c => negb (is_underscore c)) s = true ->
            all_chars (fun c => negb (is_underscore c)) (Py.lower s) = true) as Hl.
  { unfold Py.lower. induction s as [|d s IH]; [done|]. simpl.
    intros [Hd%negb_true_iff Hs]%andb_true_iff.
    destruct (proj2 (proj2 (proj2 (case_facts d))) Hd) as [_ ->]. by apply IH. }
  destruct w as [|c w]; [done|]. simpl.
  intros [Hc%negb_true_iff Hw]%andb_true_iff.
  destruct (proj2 (proj2 (proj2 (case_facts c))) Hc) as [-> _]. by apply Hl.
Qed.

Lemma elem_of_map_inv {A B : Type} (f : A -> B) (l : list A) (y : B) :
  y ∈ map f l -> exists x, y = f x /\ x ∈ l.
Proof.
  intros Hin. apply (proj1 (list_elem_of_In _ _)) in Hin.
  apply in_map_iff in Hin as (x & <- & Hx). exists x. split; [done|].
  by apply list_elem_of_In.
Qed.

(** X10.  [format_field_name] gives no display name exactly to the six
    technical fields.  A display name is normalised: it has no
    underscore, its words are separated by single blanks with no
    whitespace at either end, and every word is capitalised. *)
Theorem format_field_name_normalised (key : string) :
  (format_field_name key = None <-> key ∈ skip_fields)
  /\ forall label,
       format_field_name key = Some label ->
       all_chars (fun c => negb (is_underscore c)) label = true
       /\ Py.join " " (Py.split label) = label
       /\ forall w, w ∈ Py.split label -> Py.capitalize w = w.
Proof.
  unfold format_field_name. split.
  - rewrite <- in_list_elem. by destruct (Py.in_list key skip_fields).
  - intros label. destruct (Py.in_list key skip_fields); [done|].
    intros [= <-].
    set (r := Py.replace_char "/" " / " (Py.replace_char "_" " " key)).
    assert (all_chars (fun c => negb (is_underscore c)) r = true) as Hr.
    { apply replace_char_chars; [done|]. right.
      apply replace_char_chars; [done|]. left.
      intros a Ha. unfold is_underscore. by rewrite Ha. }
    assert (Forall (fun w => w ≠ "" /\ no_space w = true)
              (map Py.capitalize (Py.split r))) as Htok.
    { apply Forall_forall. intros w (w0 & -> & Hin)%elem_of_map_inv.
      apply capitalize_token. split.
      - by apply (split_tokens_nonempty r).
      - by apply (split_tokens_no_space r). }
    rewrite (split_join _ Htok). split; [|split; [done|]].
    + apply join_chars; [done|]. apply Forall_forall.
      intros w (w0 & -> & Hin)%elem_of_map_inv.
      apply capitalize_chars. by apply (split_tokens_chars _ r).
    + intros w (w0 & -> & _)%elem_of_map_inv. apply capitalize_idemp.
Qed.

Lemma format_field_name_normalised_witness :
  Py.join " " (Py.split "Soil Ph / Level") = "Soil Ph / Level"
  /\ "Cost" ∈ skip_fields.
Proof.
  destruct (format_field_name_normalised "soil_pH/level") as [_ H].
  destruct (format_field_name_normalised "Cost") as [[Hskip _] _].
  split.
  - apply (H "Soil Ph / Level"). reflexivity.
  - apply Hskip. reflexivity.
Defined.

(** ** Records with nothing to print, and fields from nowhere *)

Lemma process_fields_all_empty (rec : record) (items : list (string * string))
    (p : gset string) :
  (forall k v, (k, v) ∈ items -> v = "") ->
  process_fields rec items p = (p, []).
Proof.
  induction items as [|[k v] items IH]; intros H; [done|].
  rewrite process_fields_cons.
  assert (v = "") as -> by (apply (H k); apply list_elem_of_here).
  assert (process_field rec p k "" = (p, [])) as -> by done.
  simpl. rewrite IH; [done|].
  intros k' v' Hin. apply (H k'). by apply list_elem_of_further.
Qed.

(** X18.  A record all of whose values are empty (the empty record
    included) gives a document with the title heading only, and marks
    nothing but the title; without a title the heading is the
    placeholder. *)
Theorem all_empty_record_title_only (rec : record) :
  (forall k v, (k, v) ∈ rec -> v = "") ->
  rendered rec = [Title (default "Unknown Product" (lookup_field "Title" rec))]
  /\ consumed rec = {["Title"]}
  /\ (lookup_field "Title" rec = None ->
      rendered rec = [Title "Unknown Product"]).
Proof.
  intros H. rewrite rendered_eq, consumed_eq, process_fields_all_empty by done.
  split; [done|]. split; [done|]. unfold get_field. by intros ->.
Qed.

Lemma all_empty_record_title_only_witness :
  rendered [("SKU", ""); ("Color", "")] = [Title "Unknown Product"].
Proof.
  apply all_empty_record_title_only; [|reflexivity].
  intros k v Hin.
  repeat (apply elem_of_cons in Hin as [[= _ <-]|Hin]; [reflexivity|]).
  by apply elem_of_nil in Hin.
Defined.

(** X19.  In a record with distinct keys, a document prints and marks
    fields of the record only: every field printed by an instruction
    after the title heading, and every name in [processed_fields] other
    than the title, is a key of the record with a value that is not
    empty. *)
Theorem only_record_fields (rec : record) :
  NoDup rec.*1 ->
  (forall k, k ∈ consumed rec -> k ≠ "Title" ->
             exists v, (k, v) ∈ rec /\ v ≠ "")
  /\ (forall i f, i ∈ rendered rec -> f ∈ fields_of i -> f ≠ "Title" ->
                   exists v, (f, v) ∈ rec /\ v ≠ "").
Proof.
  intros Hnd.
  destruct (process_fields_present rec rec {["Title"]}) as [Hp Hout].
  { by apply record_items_of_record. }
  { intros k ->%elem_of_singleton. by left. }
  assert (forall k, present_nonempty k rec = true ->
                    exists v, (k, v) ∈ rec /\ v ≠ "") as Hpres.
  { intros k (v & Hl%lookup_field_Some & Hv)%present_nonempty_spec. eauto. }
  split.
  - rewrite consumed_eq. intros k [?|?]%Hp Hne; [done | auto].
  - rewrite rendered_eq. intros i f [->|Hi]%elem_of_cons Hf Hne.
    + by apply list_elem_of_singleton in Hf.
    + eauto.
Qed.

Lemma only_record_fields_witness :
  exists v, ("Soil pH", v) ∈ three_conditions /\ v ≠ "".
Proof.
  assert (NoDup three_conditions.*1) as Hnd.
  { apply (bool_decide_unpack _). vm_compute. exact I. }
  apply (proj1 (only_record_fields three_conditions Hnd)); [|discriminate].
  apply (bool_decide_unpack _). vm_compute. exact I.
Defined.

(** ** The documents saved by [main] *)








(** ** Looking up a product by name *)

(** With the case folding of [Py], the lookup is the one of
    [regenerate]. *)
Lemma find_product_ascii (name : string) (products : list record) :
  Unicode.find_product Py.lower name products = find_product name products.
Proof. induction products as [|r products IH]; simpl; by rewrite ?IH. Qed.

(** X12.  The lookup of the [--product] branch returns the first
    record of the collection whose title equals the name after
    [lower()] (a record without title counts as titled with the empty
    text), and nothing exactly when no record does; names with the same
    [lower()] find the same record.  This holds for any case
    folding. *)
Theorem find_product_first_match (str_lower : string -> string)
    (name : string) (products : list record) :
  match Unicode.find_product str_lower name products with
  | Some product =>
      exists pre post,
        products = pre ++ product :: post
        /\ str_lower (get_field "Title" "" product) = str_lower name
        /\ forall r, r ∈ pre -> str_lower (get_field "Title" "" r) ≠ str_lower name
  | None =>
      forall r, r ∈ products -> str_lower (get_field "Title" "" r) ≠ str_lower name
  end
  /\ forall name', str_lower name' = str_lower name ->
                   Unicode.find_product str_lower name' products
                   = Unicode.find_product str_lower name products.
Proof.
  split.
  - induction products as [|r products IH]; simpl.
    { by intros r ?%elem_of_nil. }
    destruct (String.eqb_spec (str_lower (get_field "Title" "" r)) (str_lower name))
      as [Heq|Hne].
    + exists [], products. split; [done|]. split; [done|].
      by intros r' ?%elem_of_nil.
    + destruct (Unicode.find_product str_lower name products) as [product|].
      * destruct IH as (pre & post & -> & Ht & Hpre).
        exists (r :: pre), post. split; [done|]. split; [done|].
        intros r' [->|?]%elem_of_cons; auto.
      * intros r' [->|?]%elem_of_cons; auto.
  - intros name' Heq. induction products as [|r products IH]; simpl; [done|].
    by rewrite Heq, IH.
Qed.

Lemma find_product_first_match_witness :
  Unicode.find_product sample_lower "CAFÉ AU LAIT"
    [[("Title", "Yarrow")]; [("Title", "Café au Lait"); ("SKU", "a")];
     [("Title", "café au lait"); ("SKU", "b")]]
  = Unicode.find_product sample_lower "café au lait"
      [[("Title", "Yarrow")]; [("Title", "Café au Lait"); ("SKU", "a")];
       [("Title", "café au lait"); ("SKU", "b")]].
Proof.
  apply (proj2 (find_product_first_match sample_lower "café au lait" _)).
  reflexivity.
Defined.

(** ** [generate_sku] *)







(** The SKU of that title, and one with a sharp s. *)
Lemma generate_sku_examples :
  Unicode.generate_sku sample_isalnum sample_upper
    [80; 105; 241; 111; 110; 32; 80; 105; 110; 101]%N
  = Unicode.of_string "W-PP-0.25-LB"
  /\ Unicode.generate_sku sample_isalnum sample_upper
       (Unicode.of_string "Blue Flax (Linum lewisii)")
     = Unicode.of_string "W-BFLL-0.25-LB"
  /\ Unicode.generate_sku sample_isalnum sample_upper [223; 32; 98]%N
     = Unicode.of_string "W-SSB-0.25-LB".
Proof. split; [|split]; reflexivity. Qed.

(** * Further properties of [product_requester.py] *)

(** X14.  Without a key, neither as argument nor in the environment
    (absent or empty), [add_new_product] returns [False] and leaves the
    world as it was, whatever the service would answer. *)
Theorem no_api_key_no_change (json_loads : string -> option Json.value)
    (title : string) (api_key : option string) (is_mix : bool)
    (mix_components : option (list string)) (response : option string)
    (w : world) :
  truthy_opt api_key = false -> truthy_opt (environ_api_key w) = false ->
  add_new_product json_loads title api_key is_mix mix_components response w
  = Some (false, w).
Proof.
  intros Hk Henv. unfold add_new_product. by rewrite Hk, Henv.
Qed.

Lemma no_api_key_no_change_witness :
  add_new_product Json.loads "Yarrow" (Some "") true None
    (Some (Json.q "{'Title': 'Yarrow'}"))
    {| environ_api_key := None; products_data_json := None; save_calls := [] |}
  = Some (false,
          {| environ_api_key := None; products_data_json := None;
             save_calls := [] |}).
Proof. apply no_api_key_no_change; reflexivity. Defined.

(** What [add_new_product] does once the key is found. *)
Lemma add_new_product_with_key (json_loads : string -> option Json.value)
    (title : string) (api_key : option string) (is_mix : bool)
    (mix_components : option (list string)) (response : option string)
    (w : world) :
  truthy_opt api_key = true \/ truthy_opt (environ_api_key w) = true ->
  (is_mix = true -> is_Some mix_components) ->
  add_new_product json_loads title api_key is_mix mix_components response w
  = let product_data := get_product_info_from_openai json_loads response in
    if negb (Json.truthy product_data) then Some (false, w)
    else
      match already_exists title (load_existing_products w) with
      | None => None
      | Some true => Some (false, w)
      | Some false =>
          Some (true,
                save_products (load_existing_products w ++ [product_data]) w)
      end.
Proof.
  intros Hkey Hmix. unfold add_new_product.
  assert (truthy_opt (if truthy_opt api_key then api_key else environ_api_key w)
          = true) as ->.
  { destruct (truthy_opt api_key) eqn:E; [done|]. by destruct Hkey. }
  destruct is_mix; [|done].
  by rewrite (bool_decide_eq_true_2 _ (Hmix eq_refl)).
Qed.

(** X15.  When the service call raises, or its answer yields no
    usable value (nothing that parses, or a value that Python takes as
    false, such as an empty object), [add_new_product] returns [False]
    and leaves the world as it was: nothing partial is stored. *)
Theorem generation_failure_no_change (json_loads : string -> option Json.value)
    (title : string) (api_key : option string) (is_mix : bool)
    (mix_components : option (list string)) (response : option string)
    (w : world) :
  (is_mix = true -> is_Some mix_components) ->
  response = None
  \/ Json.truthy (get_product_info_from_openai json_loads response) = false ->
  add_new_product json_loads title api_key is_mix mix_components response w
  = Some (false, w).
Proof.
  intros Hmix Hfail.
  assert (Json.truthy (get_product_info_from_openai json_loads response) = false)
    as Hfalsy by (destruct Hfail as [->|?]; done).
  destruct (truthy_opt api_key) eqn:Ek.
  - rewrite add_new_product_with_key; auto. simpl. by rewrite Hfalsy.
  - destruct (truthy_opt (environ_api_key w)) eqn:Ee.
    + rewrite add_new_product_with_key; auto. simpl. by rewrite Hfalsy.
    + unfold add_new_product. by rewrite Ek, Ee.
Qed.

Lemma generation_failure_no_change_witness :
  add_new_product Json.loads "Yarrow" None false None (Some "{}") stored_blue_flax
  = Some (false, stored_blue_flax)
  /\ add_new_product Json.loads "Yarrow" None false None None stored_blue_flax
     = Some (false, stored_blue_flax).
Proof.
  split; apply generation_failure_no_change;
    [discriminate | right; reflexivity | discriminate | left; reflexivity].
Defined.






